(** * PDF toolbox (app.py): page-range parser, splitter, merger, compressor

    A shallow embedding of the engine functions of [app.py]
    ([parse_page_range], [split_pdf], [merge_pdfs], [compress_pdf]) and the
    properties the specification states about them.

    Conventions of the embedding.
    - A Python [int] is a [Z]; a Python [str] is a [string], each character
      standing for the code point of the same number (code points 0..255);
      [bytes] is a list of bytes.
    - A Python call that may raise returns a [result]: [Ok v] or [Raise e].
      [try: ... except ValueError: continue] is [except_ValueError].
    - [int(s)] is [PyInt.int]: white space around, a sign, decimal digits
      with single underscores between them, and the interpreter's limit on
      the number of digits, which is a parameter of the development.
    - A Python [float] is [PyFloat.float]: a rational, an infinity or NaN;
      the operations round to nearest, ties to even, in binary64.
    - The [set] of pages is a [gset Z]; [sorted(list(pages))] sorts its
      elements.
    - pypdf ([PdfReader], [PdfWriter], [PdfMerger]) is an external library:
      it is an interface ([PdfLibrary]) the engine functions are written
      against. *)

From Stdlib Require Import Ascii String QArith Qabs Lqa SpecFloat.
From Stdlib.Strings Require Import Byte.
From stdpp Require Import gmap strings list sorting pretty.

#[local] Set Warnings "-clear-no-such-hyp".

Local Open Scope string_scope.
Local Open Scope Z_scope.

(** ** Exceptions *)

Inductive exception : Type :=
  | ValueError
  | IndexError
  | ZeroDivisionError
  | OverflowError
  | PyPdfError (msg : string).

Inductive result (A : Type) : Type :=
  | Ok (a : A)
  | Raise (e : exception).
Arguments Ok {A} a.
Arguments Raise {A} e.

Global Instance result_ret : MRet result := λ A a, Ok a.
Global Instance result_bind : MBind result := λ A B f m,
  match m with
  | Ok a => f a
  | Raise e => Raise e
  end.

(** [try: body except ValueError: continue] inside a loop whose state is
    [A]: a [ValueError] raised by [body] ends the iteration with the state
    [unchanged]; any other exception goes on to the caller. *)
Definition except_ValueError {A} (body : result A) (unchanged : A) : result A :=
  match body with
  | Raise ValueError => Ok unchanged
  | r => r
  end.

(** A [for] loop whose body may raise: the first exception ends the loop. *)
Fixpoint for_each {S X} (body : S → X → result S) (st : S) (xs : list X)
    : result S :=
  match xs with
  | [] => Ok st
  | x :: xs' => st' ← body st x; for_each body st' xs'
  end.

(** ** Strings *)

Module Str.

(** [s.replace(c, "")] for a one-character [c]. *)
Fixpoint remove (c : ascii) (s : string) : string :=
  match s with
  | EmptyString => EmptyString
  | String a s' =>
      if decide (a = c) then remove c s' else String a (remove c s')
  end.

(** [s.split(sep)] for a one-character separator: one more field than
    there are separators, so [""] gives [[""]]. *)
Fixpoint split (sep : ascii) (s : string) : list string :=
  match s with
  | EmptyString => [EmptyString]
  | String a s' =>
      if decide (a = sep) then EmptyString :: split sep s'
      else match split sep s' with
           | [] => [String a EmptyString]
           | field :: fields => String a field :: fields
           end
  end.

(** [c in s] for a one-character [c]. *)
Fixpoint contains (c : ascii) (s : string) : bool :=
  match s with
  | EmptyString => false
  | String a s' => if decide (a = c) then true else contains c s'
  end.

End Str.

(** ** [int(str)] *)

Module PyInt.

(** The characters [int] strips around the number: the ASCII white space
    and, below 256, the two other Unicode spaces (NEL and NBSP). *)
Definition is_space (c : ascii) : bool :=
  let n := N_of_ascii c in
  ((9 <=? n) && (n <=? 13) || (n =? 32) || (n =? 133) || (n =? 160))%N.

Definition digit_of (c : ascii) : option Z :=
  let n := N_of_ascii c in
  if ((48 <=? n) && (n <=? 57))%N then Some (Z.of_N n - 48) else None.

Fixpoint skip_spaces (s : string) : string :=
  match s with
  | String c s' => if is_space c then skip_spaces s' else s
  | EmptyString => EmptyString
  end.

(** After a digit: more digits, each optionally preceded by one
    underscore. Returns the value, the number of digits read and the
    unread rest. *)
Fixpoint scan_digits (acc : Z) (ndigits : N) (s : string) : Z * N * string :=
  match s with
  | String c s' =>
      match digit_of c with
      | Some d => scan_digits (acc * 10 + d) (ndigits + 1) s'
      | None =>
          if decide (c = "_"%char) then
            match s' with
            | String c' s'' =>
                match digit_of c' with
                | Some d => scan_digits (acc * 10 + d) (ndigits + 1) s''
                | None => (acc, ndigits, s)
                end
            | EmptyString => (acc, ndigits, s)
            end
          else (acc, ndigits, s)
      end
  | EmptyString => (acc, ndigits, s)
  end.

(** The interpreter refuses a decimal string of more than
    [max_str_digits] digits when that limit is set (not 0); strings of at
    most 640 digits are never refused. *)
Definition too_many_digits (max_str_digits ndigits : N) : bool :=
  ((640 <? ndigits) && (0 <? max_str_digits) && (max_str_digits <? ndigits))%N.

Definition unsigned (max_str_digits : N) (s : string) : result Z :=
  match s with
  | String c s' =>
      match digit_of c with
      | Some d =>
          let '(v, ndigits, rest) := scan_digits d 1 s' in
          if too_many_digits max_str_digits ndigits then Raise ValueError
          else match skip_spaces rest with
               | EmptyString => Ok v
               | String _ _ => Raise ValueError
               end
      | None => Raise ValueError
      end
  | EmptyString => Raise ValueError
  end.

(** [int(s)], base ten. *)
Definition int (max_str_digits : N) (s : string) : result Z :=
  match skip_spaces s with
  | String "+" s' => unsigned max_str_digits s'
  | String "-" s' => v ← unsigned max_str_digits s'; Ok (- v)
  | s' => unsigned max_str_digits s'
  end.

End PyInt.

(** ** The page-range parser *)

Section Parser.

(** [sys.get_int_max_str_digits()]: 0 when the interpreter has no limit. *)
Variable int_max_str_digits : N.

Abbreviation int := (PyInt.int int_max_str_digits).

(** [range(a, b)] *)
Definition range (a b : Z) : list Z := seqZ a (b - a).

(** [start, end = fields] *)
Definition unpack2 (fields : list string) : result (string * string) :=
  match fields with
  | [a; b] => Ok (a, b)
  | _ => Raise ValueError
  end.

(** [if 1 <= i <= total_pages: pages.add(i - 1)] *)
Definition add_in_range (total_pages : Z) (pages : gset Z) (i : Z) : gset Z :=
  if decide (1 ≤ i ≤ total_pages) then {[ i - 1 ]} ∪ pages else pages.

(** The body of the [try] for a part with a dash. *)
Definition range_part (total_pages : Z) (pages : gset Z) (part : string)
    : result (gset Z) :=
  '(start, end_) ← unpack2 (Str.split "-" part);
  start ← int start;
  end_ ← int end_;
  Ok (foldl (add_in_range total_pages) pages (range start (end_ + 1))).

(** The body of the [try] for a part without a dash. *)
Definition single_part (total_pages : Z) (pages : gset Z) (part : string)
    : result (gset Z) :=
  page ← int part;
  Ok (add_in_range total_pages pages page).

(** One iteration of [for part in parts]. Both [try] bodies change
    [pages] only after their last statement that can raise, so the handler
    finds [pages] as the iteration found it. *)
Definition parse_part (total_pages : Z) (pages : gset Z) (part : string)
    : result (gset Z) :=
  if Str.contains "-" part
  then except_ValueError (range_part total_pages pages part) pages
  else except_ValueError (single_part total_pages pages part) pages.

(** [sorted(list(pages))] *)
Definition sorted (pages : gset Z) : list Z :=
  merge_sort Z.le (elements pages).

(** The page numbers a part stands for, in the words of the grammar: a
    part without a dash stands for the integer it spells, a part [A-B] for
    the integers from [A] to [B]; a part that spells neither stands for
    nothing. *)
Definition denotes (part : string) (n : Z) : Prop :=
  if Str.contains "-" part then
    ∃ a b start end_,
      Str.split "-" part = [a; b] ∧ int a = Ok start ∧ int b = Ok end_
      ∧ start ≤ n ≤ end_
  else int part = Ok n.

Definition parts_of (range_str : string) : list string :=
  Str.split "," (Str.remove " " range_str).

Definition parse_page_range (range_str : string) (total_pages : Z)
    : result (list Z) :=
  pages ← for_each (parse_part total_pages) ∅ (parts_of range_str);
  Ok (sorted pages).

End Parser.

(** ** [float]: IEEE 754 binary64 *)

Module PyFloat.

(** The value of a finite float is a rational [m * 2^e] with [|m| <= 2^53]
    and [e >= -1074]; the sign of a zero is not kept. *)
Inductive float : Type :=
  | Finite (q : Q)
  | Infinity (negative : bool)
  | NaN.

Definition emin : Z := -1074.
Definition emax : Z := 1024.

(** [m * 2^e] *)
Definition scale (m e : Z) : Q :=
  if 0 <=? e then inject_Z (m * 2 ^ e) else m # (2 ^ Z.to_pos (- e)).

(** [2^k <= n/d] *)
Definition ge_pow2 (n d : positive) (k : Z) : bool :=
  if 0 <=? k then Z.pos d * 2 ^ k <=? Z.pos n
  else Z.pos d <=? Z.pos n * 2 ^ (- k).

(** The exponent of the last place of [n/d]: [floor (log2 (n/d)) - 52],
    and [emin] in the subnormal range. *)
Definition ulp_exponent (n d : positive) : Z :=
  let k := Z.log2 (Z.pos n) - Z.log2 (Z.pos d) in
  let floor_log2 := if ge_pow2 n d k then k else k - 1 in
  Z.max (floor_log2 - 52) emin.

(** [n/d] rounded to the nearest multiple of [2^e], ties to the even
    multiple. *)
Definition round_at (n d : positive) (e : Z) : Q :=
  let num := Z.pos n * 2 ^ Z.max 0 (- e) in
  let den := Z.pos d * 2 ^ Z.max 0 e in
  let m := num `div` den in
  let r := num `mod` den in
  let up := (den <? 2 * r) || ((den =? 2 * r) && Z.odd m) in
  scale (if up then m + 1 else m) e.

Definition round_pos (n d : positive) : Q := round_at n d (ulp_exponent n d).

(** Round to nearest, ties to even, with 53 bits of precision. *)
Definition round (x : Q) : Q :=
  match Qnum x with
  | 0 => 0%Q
  | Z.pos n => round_pos n (Qden x)
  | Z.neg n => Qopp (round_pos n (Qden x))
  end.

Definition overflows (q : Q) : bool := Qle_bool (inject_Z (2 ^ emax)) (Qabs q).

Definition is_negative (q : Q) : bool := Qnum q <? 0.

(** [a / b] on [int]s: the quotient correctly rounded, [OverflowError]
    when it is too large for a float. *)
Definition true_div (a b : Z) : result float :=
  if b =? 0 then Raise ZeroDivisionError
  else
    let q := round ((Z.sgn b * a) # Z.to_pos (Z.abs b)) in
    if overflows q then Raise OverflowError else Ok (Finite q).

(** [x * y] on [float]s: never raises, overflows to an infinity. *)
Definition mul (x y : float) : float :=
  match x, y with
  | Finite a, Finite b =>
      let q := round (a * b) in
      if overflows q then Infinity (is_negative q) else Finite q
  | Finite a, Infinity s | Infinity s, Finite a =>
      if Qeq_bool a 0 then NaN else Infinity (xorb s (is_negative a))
  | Infinity s, Infinity s' => Infinity (xorb s s')
  | NaN, _ | _, NaN => NaN
  end.

(** [x <= bound] *)
Definition le_Q (x : float) (bound : Q) : Prop :=
  match x with
  | Finite q => (q <= bound)%Q
  | Infinity negative => negative = true
  | NaN => False
  end.

End PyFloat.

(** The same percentage computed with the IEEE 754 operations of the
    standard library's [SpecFloat], to compare [PyFloat] with. *)

Module SpecFloatCheck.

Definition value (f : spec_float) : option Q :=
  match f with
  | S754_zero _ => Some 0%Q
  | S754_finite s m e => Some (PyFloat.scale (if s then Z.neg m else Z.pos m) e)
  | S754_infinity _ | S754_nan => None
  end.

Definition of_Z (z : Z) : spec_float := binary_normalize 53 1024 z 0 false.

Definition percent_SpecFloat (a b : Z) : option Q :=
  value (SFmul 53 1024 (SFdiv 53 1024 (of_Z a) (of_Z b)) (of_Z 100)).

Definition percent_PyFloat (a b : Z) : option Q :=
  match PyFloat.true_div a b with
  | Ok x =>
      match PyFloat.mul x (PyFloat.Finite 100) with
      | PyFloat.Finite r => Some r
      | _ => None
      end
  | Raise _ => None
  end.

Definition agree (a b : Z) : bool :=
  match percent_SpecFloat a b, percent_PyFloat a b with
  | Some x, Some y => Qeq_bool x y
  | _, _ => false
  end.

End SpecFloatCheck.

(** ** The pypdf interface *)

Abbreviation bytes := (list byte).

(** [len(b)] *)
Definition len {A} (l : list A) : Z := Z.of_nat (length l).

(** [seq[i]] on a Python sequence: a negative index counts from the end. *)
Definition getitem {A} (l : list A) (i : Z) : result A :=
  let j := if i <? 0 then len l + i else i in
  if (j <? 0) || (len l <=? j) then Raise IndexError
  else match l !! Z.to_nat j with
       | Some x => Ok x
       | None => Raise IndexError
       end.

(** What [app.py] calls of pypdf. A reader, writer or merger is the state
    of the Python object; a method that changes its object returns the new
    state. *)
Class PdfLibrary : Type := {
  pdf_page : Type;
  pdf_metadata : Type;
  pdf_reader : Type;
  pdf_writer : Type;
  pdf_merger : Type;
  (** [PdfReader(io.BytesIO(b))] *)
  PdfReader : bytes → result pdf_reader;
  (** [reader.pages] *)
  reader_pages : pdf_reader → list pdf_page;
  (** [reader.metadata], [None] when it is missing or empty *)
  reader_metadata : pdf_reader → option pdf_metadata;
  (** [PdfWriter()] *)
  PdfWriter : pdf_writer;
  (** [writer.add_page(p)] *)
  add_page : pdf_writer → pdf_page → result pdf_writer;
  (** [writer.add_metadata(md)] *)
  add_metadata : pdf_writer → pdf_metadata → result pdf_writer;
  (** [writer.pages] *)
  writer_pages : pdf_writer → list pdf_page;
  (** [writer.pages[i].compress_content_streams()] *)
  compress_content_streams : pdf_writer → nat → result pdf_writer;
  (** [writer.compress_identical_objects(remove_identicals=True,
      remove_orphans=True)] *)
  compress_identical_objects : pdf_writer → result pdf_writer;
  (** [writer.write(output); output.getvalue()] *)
  writer_write : pdf_writer → result bytes;
  (** [PdfMerger()] *)
  PdfMerger : pdf_merger;
  (** [merger.append(io.BytesIO(b))] *)
  merger_append : pdf_merger → bytes → result pdf_merger;
  (** [merger.write(output); output.getvalue()] *)
  merger_write : pdf_merger → result bytes;
}.

(** ** The engine functions *)

Inductive number : Type :=
  | Int (z : Z)
  | Float (f : PyFloat.float).

Record stats_dict : Type := {
  original_size : Z;
  compressed_size : Z;
  reduction : number;
}.

(** [x <= bound] on a number *)
Definition number_le (x : number) (bound : Q) : Prop :=
  match x with
  | Int z => (inject_Z z <= bound)%Q
  | Float f => PyFloat.le_Q f bound
  end.

Section Engine.

Context `{PdfLibrary}.
Variable int_max_str_digits : N.

(** Lines 93-101 of [compress_pdf]. *)
Definition compression_stats (original_size compressed_size : Z)
    : result stats_dict :=
  reduction ←
    (if decide (original_size > 0) then
       q ← PyFloat.true_div (original_size - compressed_size) original_size;
       Ok (Float (PyFloat.mul q (PyFloat.Finite 100)))
     else Ok (Int 0));
  Ok {| original_size := original_size;
        compressed_size := compressed_size;
        reduction := reduction |}.

(** Lines 72-91 of [compress_pdf]: the document read, copied to a
    writer, compressed and written back. *)
Definition compress_document (input_bytes : bytes) : result bytes :=
  reader ← PdfReader input_bytes;
  let writer := PdfWriter in
  writer ← for_each add_page writer (reader_pages reader);
  writer ← match reader_metadata reader return result pdf_writer with
           | Some md => add_metadata writer md
           | None => Ok writer
           end;
  writer ← for_each compress_content_streams writer
             (seq 0 (length (writer_pages writer)));
  writer ← compress_identical_objects writer;
  writer_write writer.

Definition compress_pdf (input_bytes : bytes) (quality : string)
    : result (bytes * stats_dict) :=
  output_bytes ← compress_document input_bytes;
  stats ← compression_stats (len input_bytes) (len output_bytes);
  Ok (output_bytes, stats).

(** [f"page_{page_idx + 1}.pdf"] *)
Definition page_filename (page_idx : Z) : string :=
  "page_" +:+ pretty (page_idx + 1) +:+ ".pdf".

(** Lines 118-122: the document holding the one page [page_idx]. *)
Definition page_output (reader : pdf_reader) (page_idx : Z) : result bytes :=
  let writer := PdfWriter in
  page ← getitem (reader_pages reader) page_idx;
  writer ← add_page writer page;
  writer_write writer.

(** The body of [for page_idx in pages_to_split]. *)
Definition split_page (reader : pdf_reader) (results : list (string * bytes))
    (page_idx : Z) : result (list (string * bytes)) :=
  output ← page_output reader page_idx;
  let filename := page_filename page_idx in
  Ok (results ++ [(filename, output)])%list.

(** Lines 112-115. *)
Definition pages_to_split (mode page_range : string) (total_pages : Z)
    : result (list Z) :=
  if decide (mode = "all") then Ok (range 0 total_pages)
  else parse_page_range int_max_str_digits page_range total_pages.

Definition split_pdf (input_bytes : bytes) (mode page_range : string)
    : result (list (string * bytes)) :=
  reader ← PdfReader input_bytes;
  let total_pages := len (reader_pages reader) in
  let results := [] in
  pages_to_split ← pages_to_split mode page_range total_pages;
  for_each (split_page reader) results pages_to_split.

Definition merge_pdfs (files : list bytes) : result bytes :=
  let merger := PdfMerger in
  merger ← for_each merger_append merger files;
  merger_write merger.

End Engine.

(** ** The other functions of [app.py] *)

(** [format(x, ".<prec>f")] on a float, as the f-strings of [format_size]
    and of the reduction metric use it: the decimal with [prec] digits after
    the point nearest to the value, ties to the even last digit; a negative
    value keeps its sign when it rounds to zero. ([PyFloat] does not keep
    the sign of a zero float.) *)

Module PyFormat.

(** A non-negative rational to the nearest integer, ties to even. *)
Definition round_half_even (q : Q) : Z :=
  let n := Qnum q in
  let d := Z.pos (Qden q) in
  let m := n `div` d in
  let r := n `mod` d in
  if (d <? 2 * r) || ((d =? 2 * r) && Z.odd m) then m + 1 else m.

Fixpoint zeros (n : nat) : string :=
  match n with
  | O => ""
  | S n' => String "0" (zeros n')
  end.

(** [s] with zeros in front, up to [width] characters. *)
Definition zero_pad (width : nat) (s : string) : string :=
  zeros (width - String.length s) +:+ s.

(** The digits of [n / 10^prec], with [prec] of them after the point. *)
Definition decimal (prec : nat) (n : Z) : string :=
  let unit := 10 ^ Z.of_nat prec in
  match prec with
  | O => pretty n
  | S _ =>
      pretty (n `div` unit) +:+ "." +:+ zero_pad prec (pretty (n `mod` unit))
  end.

Definition fixed (prec : nat) (x : PyFloat.float) : string :=
  match x with
  | PyFloat.Finite q =>
      let n := round_half_even (Qabs q * inject_Z (10 ^ Z.of_nat prec)) in
      (if PyFloat.is_negative q then "-" else "") +:+ decimal prec n
  | PyFloat.Infinity negative => if negative then "-inf" else "inf"
  | PyFloat.NaN => "nan"
  end.

End PyFormat.

(** Lines 60-67. *)
Definition format_size (size : Z) : result string :=
  if decide (size < 1024) then Ok (pretty size +:+ " B")
  else if decide (size < 1024 * 1024) then
    x ← PyFloat.true_div size 1024;
    Ok (PyFormat.fixed 1 x +:+ " KB")
  else
    x ← PyFloat.true_div size (1024 * 1024);
    Ok (PyFormat.fixed 2 x +:+ " MB").

(** [s.rsplit(sep, 1)[0]] for a one-character separator: what stands before
    the last separator, and all of [s] when it has none. *)
Fixpoint before_last (sep : ascii) (s : string) : option string :=
  match s with
  | EmptyString => None
  | String a s' =>
      match before_last sep s' with
      | Some head => Some (String a head)
      | None => if decide (a = sep) then Some EmptyString else None
      end
  end.

Definition rsplit1_head (sep : ascii) (s : string) : string :=
  default s (before_last sep s).

(** Lines 229-230: the name the compressed file is offered under. *)
Definition compressed_download_name (uploaded_name : string) : string :=
  let original_name := rsplit1_head "." uploaded_name in
  original_name +:+ "_compressed.pdf".

(** Lines 295 and 301: the name of the archive of a split. *)
Definition split_archive_name (uploaded_name : string) : string :=
  let original_name := rsplit1_head "." uploaded_name in
  original_name +:+ "_pages.zip".

(** What [create_zip] calls of [zipfile]: an archive open for writing is
    the state of the [ZipFile] object. *)
Class ZipLibrary : Type := {
  zip_file : Type;
  (** [zipfile.ZipFile(zip_buffer, "w", zipfile.ZIP_DEFLATED)] *)
  ZipFile : zip_file;
  (** [zip_file.writestr(filename, content)] *)
  writestr : zip_file → string → bytes → result zip_file;
  (** leaving the [with] block, then [zip_buffer.getvalue()] *)
  zip_getvalue : zip_file → result bytes;
}.

(** Lines 171-177. *)
Definition create_zip `{ZipLibrary} (files : list (string * bytes))
    : result bytes :=
  zip_file ← for_each (λ zip_file '(filename, content),
                         writestr zip_file filename content) ZipFile files;
  zip_getvalue zip_file.

(** ** A small PDF library to run the engine on

    A document is the byte [%] followed by its pages, one byte each; zero
    bytes are padding, which the reader skips and the writers never emit.
    The page [!] is damaged: a writer refuses it. *)

Module OneBytePages.

Definition is_page (b : byte) : bool :=
  match b with x00 => false | _ => true end.

Definition read (b : bytes) : result (list byte) :=
  match b with
  | x25 :: rest => Ok (List.filter is_page rest)
  | _ => Raise (PyPdfError "not a PDF")
  end.

Definition write (pages : list byte) : result bytes :=
  Ok (x25 :: List.filter is_page pages).

Definition add (pages : list byte) (p : byte) : result (list byte) :=
  match p with
  | x21 => Raise (PyPdfError "damaged page")
  | _ => Ok (pages ++ [p])%list
  end.

Definition append (pages : list byte) (b : bytes) : result (list byte) :=
  r ← read b; Ok (pages ++ r)%list.

Definition library : PdfLibrary := {|
  pdf_page := byte;
  pdf_metadata := unit;
  pdf_reader := list byte;
  pdf_writer := list byte;
  pdf_merger := list byte;
  PdfReader := read;
  reader_pages := λ r, r;
  reader_metadata := λ _, None;
  PdfWriter := [];
  add_page := add;
  add_metadata := λ w _, Ok w;
  writer_pages := λ w, w;
  compress_content_streams := λ w _, Ok w;
  compress_identical_objects := λ w, Ok w;
  writer_write := write;
  PdfMerger := [];
  merger_append := append;
  merger_write := write;
|}.

End OneBytePages.

(** A small archive library to run [create_zip] on: an archive is the list
    of its entries, and its bytes are their contents one after the other. *)

Module PlainEntries.

Definition library : ZipLibrary := {|
  zip_file := list (string * bytes);
  ZipFile := [];
  writestr := λ archive filename content,
    Ok (archive ++ [(filename, content)])%list;
  zip_getvalue := λ archive, Ok (concat archive.*2);
|}.

End PlainEntries.

(** * Properties *)

(** ** The page-range parser *)

Section ParserFacts.

Variable max_str_digits : N.

Lemma unsigned_raises s e :
  PyInt.unsigned max_str_digits s = Raise e → e = ValueError.
Proof.
  unfold PyInt.unsigned. intros Hr.
  repeat case_match; congruence.
Qed.

Lemma int_raises s e : PyInt.int max_str_digits s = Raise e → e = ValueError.
Proof.
  unfold PyInt.int. intros Hr.
  repeat case_match; subst;
    try (by eapply unsigned_raises);
    destruct (PyInt.unsigned max_str_digits _) eqn:Hu; simplify_eq/=;
    by eapply unsigned_raises.
Qed.

Lemma elem_of_fold_add_in_range total l pages j :
  j ∈ foldl (add_in_range total) pages l
  ↔ j ∈ pages ∨ (1 ≤ j + 1 ≤ total ∧ j + 1 ∈ l).
Proof.
  revert pages. induction l as [|i l IH]; intros pages; simpl.
  - set_solver.
  - rewrite IH. unfold add_in_range. rewrite elem_of_cons.
    case_decide; [rewrite elem_of_union, elem_of_singleton|];
      naive_solver lia.
Qed.

Lemma range_part_spec total pages part :
  Str.contains "-" part = true →
  ∃ pages',
    except_ValueError (range_part max_str_digits total pages part) pages
    = Ok pages'
    ∧ ∀ j, j ∈ pages' ↔
        j ∈ pages ∨ (1 ≤ j + 1 ≤ total ∧ denotes max_str_digits part (j + 1)).
Proof.
  intros Hdash. unfold denotes, range_part. rewrite Hdash.
  assert (∀ X : Z → Prop, (∀ j, ¬ X j) →
    ∃ pages' : gset Z, Ok pages = Ok pages'
      ∧ ∀ j, j ∈ pages' ↔ j ∈ pages ∨ (1 ≤ j + 1 ≤ total ∧ X (j + 1)))
    as skip.
  { intros X HX. exists pages. split; [done|]. intros j.
    specialize (HX (j + 1)). tauto. }
  pose (X fields := λ n : Z, ∃ a b start end_,
    fields = [a; b] ∧ PyInt.int max_str_digits a = Ok start
    ∧ PyInt.int max_str_digits b = Ok end_ ∧ start ≤ n ≤ end_).
  destruct (Str.split "-" part) as [|a [|b [|c fields]]] eqn:Hsplit; simpl;
    try (apply (skip (X _)); by intros ? (? & ? & ? & ? & ? & _)).
  destruct (PyInt.int max_str_digits a) as [start|e] eqn:Ha; simpl.
  2:{ assert (e = ValueError) as -> by (by eapply int_raises).
      apply (skip (X _)). intros ? (? & ? & ? & ? & ? & ? & _). congruence. }
  destruct (PyInt.int max_str_digits b) as [end_|e] eqn:Hb; simpl.
  2:{ assert (e = ValueError) as -> by (by eapply int_raises).
      apply (skip (X _)). intros ? (? & ? & ? & ? & ? & ? & ? & _).
      congruence. }
  eexists; split; [done|]. intros j.
  rewrite elem_of_fold_add_in_range. unfold range. rewrite elem_of_seqZ.
  split; (intros [?|[? Hin]]; [by left|right; split; [done|]]).
  - exists a, b, start, end_. split_and!; [done..|lia|lia].
  - destruct Hin as (a' & b' & start' & end' & ? & ? & ? & ?).
    assert (start' = start ∧ end' = end_) as [-> ->] by (split; congruence).
    lia.
Qed.

Lemma single_part_spec total pages part :
  Str.contains "-" part = false →
  ∃ pages',
    except_ValueError (single_part max_str_digits total pages part) pages
    = Ok pages'
    ∧ ∀ j, j ∈ pages' ↔
        j ∈ pages ∨ (1 ≤ j + 1 ≤ total ∧ denotes max_str_digits part (j + 1)).
Proof.
  intros Hdash. unfold denotes, single_part. rewrite Hdash.
  destruct (PyInt.int max_str_digits part) as [page|e] eqn:Hint; simpl.
  - eexists; split; [done|]. intros j. unfold add_in_range.
    assert (Ok page = Ok (j + 1) ↔ j = page - 1) as ->.
    { split; [intros [= ->]|intros ->; f_equal]; lia. }
    case_decide; [rewrite elem_of_union, elem_of_singleton|]; split.
    + intros [->|?]; [right; split; [lia|done]|by left].
    + intros [?|[_ ->]]; [by right|by left].
    + by left.
    + intros [?|[? ->]]; [done|lia].
  - assert (e = ValueError) as -> by (by eapply int_raises).
    exists pages. split; [done|].
    intros j. split; [by left|]. intros [?|[_ ?]]; done.
Qed.

Lemma parse_part_spec total pages part :
  ∃ pages', parse_part max_str_digits total pages part = Ok pages'
    ∧ ∀ j, j ∈ pages' ↔
        j ∈ pages ∨ (1 ≤ j + 1 ≤ total ∧ denotes max_str_digits part (j + 1)).
Proof.
  unfold parse_part. destruct (Str.contains "-" part) eqn:Hdash.
  - by apply range_part_spec.
  - by apply single_part_spec.
Qed.

Lemma parse_parts_spec total parts pages :
  ∃ pages', for_each (parse_part max_str_digits total) pages parts = Ok pages'
    ∧ ∀ j, j ∈ pages' ↔
        j ∈ pages
        ∨ (1 ≤ j + 1 ≤ total
           ∧ ∃ part, part ∈ parts ∧ denotes max_str_digits part (j + 1)).
Proof.
  revert pages. induction parts as [|part parts IH]; intros pages; simpl.
  - exists pages. split; [done|]. intros j. split; [by left|].
    intros [?|(_ & ? & []%elem_of_nil & _)]; done.
  - destruct (parse_part_spec total pages part) as (pages1 & -> & H1). simpl.
    destruct (IH pages1) as (pages2 & -> & H2).
    exists pages2. split; [done|]. intros j. rewrite H2, H1.
    setoid_rewrite elem_of_cons. naive_solver.
Qed.

Lemma sorted_spec (pages : gset Z) :
  Sorted Z.le (sorted pages) ∧ NoDup (sorted pages)
  ∧ ∀ j, j ∈ sorted pages ↔ j ∈ pages.
Proof.
  unfold sorted. split_and!.
  - apply (Sorted_merge_sort Z.le).
  - rewrite merge_sort_Permutation. apply NoDup_elements.
  - intros j. by rewrite merge_sort_Permutation, elem_of_elements.
Qed.

Lemma sorted_ext (pages1 pages2 : gset Z) :
  (∀ j, j ∈ pages1 ↔ j ∈ pages2) → sorted pages1 = sorted pages2.
Proof.
  intros Heq. assert (pages1 = pages2) as -> by set_solver.
  done.
Qed.

(** What [parse_page_range] returns: always a list, whose members are the
    in-range numbers some part stands for, less one. *)
Lemma parse_page_range_spec range_str total :
  ∃ pages, parse_page_range max_str_digits range_str total = Ok pages
    ∧ Sorted Z.le pages ∧ NoDup pages
    ∧ ∀ j, j ∈ pages ↔
        1 ≤ j + 1 ≤ total
        ∧ ∃ part, part ∈ parts_of range_str
                  ∧ denotes max_str_digits part (j + 1).
Proof.
  unfold parse_page_range.
  destruct (parse_parts_spec total (parts_of range_str) ∅)
    as (set & -> & Hset).
  simpl. destruct (sorted_spec set) as (Hsorted & Hnodup & Hmem).
  eexists; split_and!; [done..|]. intros j. rewrite Hmem, Hset.
  rewrite elem_of_empty. tauto.
Qed.

Lemma split_not_nil sep s : Str.split sep s ≠ [].
Proof. destruct s; simpl; repeat case_match; done. Qed.

(** The fields of two strings put together with a separator. *)
Lemma split_app sep s1 s2 :
  Str.split sep (s1 +:+ String sep s2)
  = (Str.split sep s1 ++ Str.split sep s2)%list.
Proof.
  induction s1 as [|a s1 IH]; simpl.
  - by rewrite decide_True.
  - case_decide; [by rewrite IH|]. rewrite IH.
    pose proof (split_not_nil sep s1). by destruct (Str.split sep s1).
Qed.

Lemma split_no_sep sep s : Str.contains sep s = false → Str.split sep s = [s].
Proof.
  induction s as [|a s IH]; simpl; [done|].
  case_decide; [done|]. intros Hs. by rewrite IH.
Qed.

Lemma remove_app c s1 s2 :
  Str.remove c (s1 +:+ s2) = Str.remove c s1 +:+ Str.remove c s2.
Proof.
  induction s1 as [|a s1 IH]; simpl; [done|].
  case_decide; simpl; by rewrite IH.
Qed.

Lemma contains_remove c c' s :
  Str.contains c (Str.remove c' s) = true → Str.contains c s = true.
Proof.
  induction s as [|a s IH]; simpl; [done|].
  repeat (case_decide; simpl); auto; congruence.
Qed.

Lemma parts_of_app s1 s2 :
  parts_of (s1 +:+ "," +:+ s2) = (parts_of s1 ++ parts_of s2)%list.
Proof.
  unfold parts_of. rewrite !remove_app. simpl. apply split_app.
Qed.

Lemma parts_of_no_comma s :
  Str.contains "," s = false → parts_of s = [Str.remove " " s].
Proof.
  intros Hs. unfold parts_of. apply split_no_sep.
  destruct (Str.contains _ (Str.remove _ _)) eqn:Hc; [|done].
  apply contains_remove in Hc. congruence.
Qed.

End ParserFacts.

(** [int] on the shapes of input it accepts and refuses. *)
Example int_accepts (max_str_digits : N) :
  PyInt.int max_str_digits "42" = Ok 42
  ∧ PyInt.int max_str_digits "+5" = Ok 5
  ∧ PyInt.int max_str_digits "007" = Ok 7
  ∧ PyInt.int max_str_digits "1_000" = Ok 1000
  ∧ PyInt.int max_str_digits (String "009" "12" +:+ String "010" "") = Ok 12.
Proof. split_and!; by vm_compute. Qed.

Example int_refuses (max_str_digits : N) :
  Forall (λ s, PyInt.int max_str_digits s = Raise ValueError)
    [""; "+"; "abc"; "x"; "1 2"; "1__0"; "_1"; "1_"; "+-1"; "1.5"; "0x10"].
Proof. repeat constructor. Qed.

(** The parser on spaces, signs, underscores, an empty range, a range with
    two dashes, and parts that start or end with a dash. *)
Example parse_page_range_shapes (max_str_digits : N) :
  parse_page_range max_str_digits
    " 3 , 1 - 2, +4, 0_5, 7-6, 2-2-2, -1, 9-, x" 20
  = Ok [0; 1; 2; 3; 4].
Proof. by vm_compute. Qed.

(** C1. For every string and every total (a non-negative one in particular),
    [parse_page_range] returns a list of zero-based page indices, each in
    [[0, total_pages)], without duplicates and in ascending order. *)
Theorem parse_page_range_indices (max_str_digits : N) (range_str : string)
    (total_pages : Z) :
  ∃ pages, parse_page_range max_str_digits range_str total_pages = Ok pages
    ∧ Forall (λ i, 0 ≤ i < total_pages) pages
    ∧ NoDup pages
    ∧ Sorted Z.le pages.
Proof.
  destruct (parse_page_range_spec max_str_digits range_str total_pages)
    as (pages & Hparse & Hsorted & Hnodup & Hmem).
  exists pages. split_and!; [done| |done..].
  apply Forall_forall. intros i [Hi _]%Hmem. lia.
Qed.

(** C2. [parse_page_range] never raises, whatever the string and the total.
    Its result holds exactly the indices [n - 1] of the numbers [n] that some
    part of the input stands for and that lie in [[1, total_pages]]: numbers
    outside are dropped, and a part that stands for no number (a malformed
    one) adds nothing and takes nothing from the other parts, so that
    dropping such a part from the input leaves the result as it is. An input
    none of whose parts stands for a number, the empty one in particular,
    gives the empty list. *)
Theorem parse_page_range_lenient (max_str_digits : N) :
  (∀ range_str total_pages,
     ∃ pages, parse_page_range max_str_digits range_str total_pages = Ok pages
       ∧ (∀ i, i ∈ pages ↔
            1 ≤ i + 1 ≤ total_pages
            ∧ ∃ part, part ∈ parts_of range_str
                      ∧ denotes max_str_digits part (i + 1))
       ∧ ((∀ part n, part ∈ parts_of range_str →
                     ¬ denotes max_str_digits part n) →
          pages = []))
  ∧ (∀ before bad after total_pages,
       Str.contains "," bad = false →
       (∀ n, ¬ denotes max_str_digits (Str.remove " " bad) n) →
       parse_page_range max_str_digits
         (before +:+ "," +:+ bad +:+ "," +:+ after) total_pages
       = parse_page_range max_str_digits
           (before +:+ "," +:+ after) total_pages)
  ∧ (∀ total_pages, parse_page_range max_str_digits "" total_pages = Ok []).
Proof.
  split_and!.
  - intros range_str total_pages.
    destruct (parse_page_range_spec max_str_digits range_str total_pages)
      as (pages & Hparse & _ & _ & Hmem).
    exists pages. split_and!; [done..|]. intros Hnone.
    destruct pages as [|i pages]; [done|].
    destruct (proj1 (Hmem i)) as (_ & part & Hpart & Hden); [left|].
    by destruct (Hnone part (i + 1)).
  - intros before bad after total_pages Hcomma Hbad.
    unfold parse_page_range.
    destruct (parse_parts_spec max_str_digits total_pages
      (parts_of (before +:+ "," +:+ bad +:+ "," +:+ after)) ∅)
      as (set1 & -> & H1).
    destruct (parse_parts_spec max_str_digits total_pages
      (parts_of (before +:+ "," +:+ after)) ∅) as (set2 & -> & H2).
    simpl. f_equal. apply sorted_ext. intros j. rewrite H1, H2.
    rewrite !parts_of_app, (parts_of_no_comma bad Hcomma).
    setoid_rewrite elem_of_app. setoid_rewrite elem_of_cons.
    split;
      (intros [?|[? (part & Hpart & Hden)]]; [by left|right; split; [done|]]);
      exists part; split; try done.
    + destruct Hpart as [?|[->|?]]; [by left| |by right].
      by destruct (Hbad (j + 1)).
    + destruct Hpart as [?|?]; [by left|right; by right].
  - intros total_pages. by vm_compute.
Qed.

(** C3. The two evaluations of the specification: ["1-3,5,7-10"] over ten
    pages, and ["abc,1-x,99"] over five, which gives the empty list and does
    not raise. *)
Theorem parse_page_range_examples (max_str_digits : N) :
  parse_page_range max_str_digits "1-3,5,7-10" 10 = Ok [0; 1; 2; 4; 6; 7; 8; 9]
  ∧ parse_page_range max_str_digits "abc,1-x,99" 5 = Ok [].
Proof. split; by vm_compute. Qed.

(** ** The splitter *)

Section SplitterFacts.

Context `{PdfLibrary}.
Variable max_str_digits : N.

Lemma for_each_app {S X} (body : S → X → result S) st xs ys :
  for_each body st (xs ++ ys)%list
  = st' ← for_each body st xs; for_each body st' ys.
Proof.
  revert st. induction xs as [|x xs IH]; intros st; simpl; [done|].
  destruct (body st x); simpl; [apply IH|done].
Qed.

Lemma split_page_ok reader results idx out :
  page_output reader idx = Ok out →
  split_page reader results idx
  = Ok (results ++ [(page_filename idx, out)])%list.
Proof. unfold split_page. by intros ->. Qed.

Lemma split_page_raise reader results idx e :
  page_output reader idx = Raise e →
  split_page reader results idx = Raise e.
Proof. unfold split_page. by intros ->. Qed.

(** When every selected page can be written, the loop adds one result per
    page, in the order of the selection. *)
Lemma split_pages_ok reader selected results :
  (∀ idx, idx ∈ selected → ∃ out, page_output reader idx = Ok out) →
  ∃ outs,
    for_each (split_page reader) results selected = Ok (results ++ outs)%list
    ∧ Forall2 (λ idx res, res.1 = page_filename idx
                          ∧ page_output reader idx = Ok res.2) selected outs.
Proof.
  revert results. induction selected as [|idx selected IH]; intros results Hok.
  - exists []. by rewrite app_nil_r.
  - destruct (Hok idx) as [out Hout]; [left|]. cbn [for_each].
    rewrite (split_page_ok _ _ _ _ Hout). cbn [mbind result_bind].
    destruct (IH (results ++ [(page_filename idx, out)])%list)
      as (outs & -> & Houts).
    { intros idx' Hin. apply Hok. by right. }
    exists ((page_filename idx, out) :: outs). split.
    + by rewrite <-app_assoc.
    + by constructor.
Qed.

(** The loop stops at the first page that cannot be written, with that
    page's exception. *)
Lemma split_pages_raise reader before idx after e results :
  (∀ j, j ∈ before → ∃ out, page_output reader j = Ok out) →
  page_output reader idx = Raise e →
  for_each (split_page reader) results (before ++ idx :: after)%list = Raise e.
Proof.
  intros Hbefore Hidx. rewrite for_each_app.
  destruct (split_pages_ok reader before results Hbefore) as (outs & -> & _).
  cbn [mbind result_bind for_each]. by rewrite (split_page_raise _ _ _ _ Hidx).
Qed.

(** A selection with a page that cannot be written has a first such page. *)
Lemma first_raise reader selected idx e :
  idx ∈ selected → page_output reader idx = Raise e →
  ∃ before idx' after e',
    selected = (before ++ idx' :: after)%list
    ∧ (∀ j, j ∈ before → ∃ out, page_output reader j = Ok out)
    ∧ page_output reader idx' = Raise e'.
Proof.
  induction selected as [|i selected IH]; intros Hin Hraise.
  - by apply elem_of_nil in Hin.
  - destruct (page_output reader i) as [out|e'] eqn:Hi.
    + apply elem_of_cons in Hin as [->|Hin]; [congruence|].
      destruct (IH Hin Hraise) as (before & idx' & after & e'' & -> & Hb & Hr).
      exists (i :: before), idx', after, e''. split_and!; [done| |done].
      intros j [->|?]%elem_of_cons; eauto.
    + exists [], i, selected, e'. split_and!; [done| |done].
      intros j []%elem_of_nil.
Qed.

(** C4. For a document the library reads, all of whose pages it can write
    out, [split_pdf] in mode ["all"] returns as many results as the
    document has pages; the result at position [i] is the output for the
    page of index [i], under the name [page_] [i + 1] [.pdf]. *)
Theorem split_pdf_all (input_bytes : bytes) (page_range : string)
    (reader : pdf_reader) :
  PdfReader input_bytes = Ok reader →
  (∀ i, 0 ≤ i < len (reader_pages reader) →
        ∃ out, page_output reader i = Ok out) →
  ∃ results, split_pdf max_str_digits input_bytes "all" page_range = Ok results
    ∧ len results = len (reader_pages reader)
    ∧ ∀ i : nat, Z.of_nat i < len (reader_pages reader) →
        ∃ out, page_output reader (Z.of_nat i) = Ok out
          ∧ results !! i
            = Some ("page_" +:+ pretty (Z.of_nat i + 1) +:+ ".pdf", out).
Proof.
  intros Hread Hpages. unfold split_pdf, pages_to_split. rewrite Hread. simpl.
  destruct (split_pages_ok reader (range 0 (len (reader_pages reader))) [])
    as (outs & -> & Houts).
  { unfold range. intros idx Hin%elem_of_seqZ. apply Hpages. lia. }
  exists outs. split; [done|].
  pose proof (Forall2_length _ _ _ Houts) as Hlen.
  unfold range in *. rewrite length_seqZ in Hlen. split.
  - unfold len in *. lia.
  - intros i Hi.
    destruct (lookup_lt_is_Some_2 outs i) as [[name out] Hres];
      [unfold len in *; lia|].
    assert (seqZ 0 (len (reader_pages reader) - 0) !! i = Some (Z.of_nat i))
      as Hidx.
    { rewrite lookup_seqZ_lt; [f_equal|]; lia. }
    destruct (Forall2_lookup_lr _ _ _ _ _ _ Houts Hidx Hres) as [Hname Hout].
    simpl in *. subst name. by exists out.
Qed.

(** C7. In range mode (any mode other than ["all"]), when the page range
    selects no page of a document the library reads, [split_pdf] returns
    the empty list and does not raise; the empty page range is such a
    range. *)
Theorem split_pdf_empty_selection (input_bytes : bytes) (mode : string)
    (reader : pdf_reader) :
  PdfReader input_bytes = Ok reader →
  mode ≠ "all" →
  (∀ page_range,
     parse_page_range max_str_digits page_range (len (reader_pages reader))
     = Ok [] →
     split_pdf max_str_digits input_bytes mode page_range = Ok [])
  ∧ split_pdf max_str_digits input_bytes mode "" = Ok [].
Proof.
  intros Hread Hmode.
  assert (∀ page_range,
    parse_page_range max_str_digits page_range (len (reader_pages reader))
    = Ok [] →
    split_pdf max_str_digits input_bytes mode page_range = Ok []) as Hempty.
  { intros page_range Hparse. unfold split_pdf, pages_to_split.
    rewrite Hread. simpl. rewrite decide_False by done. by rewrite Hparse. }
  split; [done|]. apply Hempty. by vm_compute.
Qed.

(** C8. [split_pdf] stops at the first selected page whose output cannot
    be built: when some selected page raises, the call raises the
    exception of the first such page, and returns no list of results. *)
Theorem split_pdf_fail_fast (input_bytes : bytes) (mode page_range : string)
    (reader : pdf_reader) (selected : list Z) (idx : Z) (e : exception) :
  PdfReader input_bytes = Ok reader →
  pages_to_split max_str_digits mode page_range (len (reader_pages reader))
  = Ok selected →
  idx ∈ selected →
  page_output reader idx = Raise e →
  ∃ before idx' after e',
    selected = (before ++ idx' :: after)%list
    ∧ (∀ j, j ∈ before → ∃ out, page_output reader j = Ok out)
    ∧ page_output reader idx' = Raise e'
    ∧ split_pdf max_str_digits input_bytes mode page_range = Raise e'.
Proof.
  intros Hread Hsel Hin Hraise.
  destruct (first_raise reader selected idx e Hin Hraise)
    as (before & idx' & after & e' & -> & Hbefore & Hidx').
  exists before, idx', after, e'. split_and!; [done..|].
  unfold split_pdf. rewrite Hread. simpl. rewrite Hsel. simpl.
  by apply split_pages_raise.
Qed.

End SplitterFacts.

(** ** The merger *)

Section MergerFacts.

Context `{PdfLibrary}.

(** What pypdf promises of a [PdfMerger]: it holds a sequence of pages,
    none when it is new; [append] adds the pages of the document it is
    given, in their order, after those it holds; [write] produces a
    document that reads back as the pages held. *)
Variable merger_pages : pdf_merger → list pdf_page.
Hypothesis merger_pages_new : merger_pages PdfMerger = [].
Hypothesis merger_pages_append : ∀ merger b reader,
  PdfReader b = Ok reader →
  ∃ merger', merger_append merger b = Ok merger'
    ∧ merger_pages merger' = (merger_pages merger ++ reader_pages reader)%list.
Hypothesis merger_pages_write : ∀ merger,
  ∃ out reader, merger_write merger = Ok out
    ∧ PdfReader out = Ok reader
    ∧ reader_pages reader = merger_pages merger.

Lemma append_all files readers merger :
  Forall2 (λ b reader, PdfReader b = Ok reader) files readers →
  ∃ merger', for_each merger_append merger files = Ok merger'
    ∧ merger_pages merger'
      = (merger_pages merger ++ concat (reader_pages <$> readers))%list.
Proof.
  intros Hread. revert merger.
  induction Hread as [|b reader files readers Hb _ IH]; intros merger; simpl.
  - exists merger. by rewrite app_nil_r.
  - destruct (merger_pages_append merger b reader Hb) as (merger1 & -> & H1).
    simpl. destruct (IH merger1) as (merger2 & -> & H2).
    exists merger2. split; [done|]. by rewrite H2, H1, <-app_assoc.
Qed.

Lemma merge_pdfs_spec files readers :
  Forall2 (λ b reader, PdfReader b = Ok reader) files readers →
  ∃ out reader, merge_pdfs files = Ok out
    ∧ PdfReader out = Ok reader
    ∧ reader_pages reader = concat (reader_pages <$> readers).
Proof.
  intros Hread. unfold merge_pdfs.
  destruct (append_all files readers PdfMerger Hread) as (merger & -> & Hpages).
  simpl.
  destruct (merger_pages_write merger) as (out & reader & -> & Hout & Hr).
  exists out, reader. split_and!; [done..|].
  by rewrite Hr, Hpages, merger_pages_new.
Qed.

(** C5. [merge_pdfs] appends the documents in the order of the list and
    each document's pages in their own order: the result reads back as
    the pages of the sources one after the other, as many as the sources
    have together; for two documents [A] and [B] these are the pages of
    [A] followed by the pages of [B]. *)
Theorem merge_pdfs_pages :
  (∀ files readers,
     Forall2 (λ b reader, PdfReader b = Ok reader) files readers →
     ∃ out reader, merge_pdfs files = Ok out
       ∧ PdfReader out = Ok reader
       ∧ reader_pages reader = concat (reader_pages <$> readers)
       ∧ length (reader_pages reader)
         = sum_list (length ∘ reader_pages <$> readers))
  ∧ (∀ A B reader_A reader_B,
       PdfReader A = Ok reader_A → PdfReader B = Ok reader_B →
       ∃ out reader, merge_pdfs [A; B] = Ok out
         ∧ PdfReader out = Ok reader
         ∧ reader_pages reader
           = (reader_pages reader_A ++ reader_pages reader_B)%list
         ∧ length (reader_pages reader)
           = (length (reader_pages reader_A)
              + length (reader_pages reader_B))%nat).
Proof.
  split.
  - intros files readers Hread.
    destruct (merge_pdfs_spec files readers Hread)
      as (out & reader & ? & ? & Hr).
    exists out, reader. split_and!; [done..|]. rewrite Hr.
    clear. induction readers as [|r readers IH]; [done|].
    rewrite !fmap_cons. cbn [concat]. rewrite length_app, IH. done.
  - intros A B reader_A reader_B HA HB.
    destruct (merge_pdfs_spec [A; B] [reader_A; reader_B])
      as (out & reader & ? & ? & Hr); [by repeat constructor|].
    simpl in Hr. rewrite app_nil_r in Hr.
    exists out, reader. split_and!; [done..|]. by rewrite Hr, length_app.
Qed.

(** C9. [merge_pdfs] accepts the lists the interface never sends: for a
    single document the result reads back as that document's pages, and
    for the empty list it is a document without pages; neither call
    raises. *)
Theorem merge_pdfs_degenerate :
  (∀ A reader_A,
     PdfReader A = Ok reader_A →
     ∃ out reader, merge_pdfs [A] = Ok out
       ∧ PdfReader out = Ok reader
       ∧ reader_pages reader = reader_pages reader_A)
  ∧ (∃ out reader, merge_pdfs [] = Ok out
       ∧ PdfReader out = Ok reader
       ∧ reader_pages reader = []).
Proof.
  split.
  - intros A reader_A HA.
    destruct (merge_pdfs_spec [A] [reader_A])
      as (out & reader & ? & ? & Hr); [by repeat constructor|].
    simpl in Hr. rewrite app_nil_r in Hr. by exists out, reader.
  - destruct (merge_pdfs_spec [] []) as (out & reader & ? & ? & Hr);
      [constructor|].
    by exists out, reader.
Qed.

End MergerFacts.

(** ** The compressor *)

Module PyFloatFacts.

Import PyFloat.

Lemma scale_nonneg m e : 0 ≤ m → (0 <= scale m e)%Q.
Proof.
  intros Hm. unfold scale. case_match; unfold Qle; simpl; [|lia].
  assert (0 ≤ 2 ^ e) by (apply Z.pow_nonneg; lia). nia.
Qed.

Lemma scale_le_int m e M :
  e ≤ 0 → m ≤ M * 2 ^ (- e) → (scale m e <= inject_Z M)%Q.
Proof.
  intros He Hm. unfold scale. destruct (0 <=? e) eqn:Hsign.
  - assert (e = 0) as -> by lia. unfold Qle; simpl in *. lia.
  - unfold Qle; simpl. rewrite Pos2Z.inj_pow, Z2Pos.id by lia. lia.
Qed.

Lemma round_at_nonneg n d e : (0 <= round_at n d e)%Q.
Proof.
  unfold round_at. apply scale_nonneg.
  assert (0 ≤ Z.pos n * 2 ^ Z.max 0 (- e)) as Hnum
    by (assert (0 ≤ 2 ^ Z.max 0 (- e)) by (apply Z.pow_nonneg; lia); nia).
  assert (0 < Z.pos d * 2 ^ Z.max 0 e) as Hden
    by (assert (0 < 2 ^ Z.max 0 e) by (apply Z.pow_pos_nonneg; lia); nia).
  pose proof (Z.div_pos _ _ Hnum Hden). case_match; lia.
Qed.

(** Rounding at an exponent that is not positive does not cross an
    integer. *)
Lemma round_at_le_int n d e M :
  e ≤ 0 → Z.pos n ≤ M * Z.pos d → (round_at n d e <= inject_Z M)%Q.
Proof.
  intros He Hle. unfold round_at. apply scale_le_int; [done|].
  rewrite (Z.max_r 0 (- e)), (Z.max_l 0 e), Z.pow_0_r, Z.mul_1_r by lia.
  set (p := 2 ^ (- e)). assert (0 < p) by (apply Z.pow_pos_nonneg; lia).
  set (num := Z.pos n * p).
  pose proof (Z.div_mod num (Z.pos d) ltac:(lia)) as Hdiv.
  pose proof (Z.mod_pos_bound num (Z.pos d) ltac:(lia)) as Hmod.
  assert (num ≤ (M * p) * Z.pos d) as Hnum by (unfold num; nia).
  destruct (_ || _) eqn:Hup.
  - assert (0 < num `mod` Z.pos d) as Hr.
    { apply orb_true_iff in Hup as [Hup|[Hup _]%andb_true_iff]; lia. }
    nia.
  - nia.
Qed.

Lemma ulp_exponent_nonpos n d M :
  M < 2 ^ 53 → Z.pos n ≤ M * Z.pos d → ulp_exponent n d ≤ 0.
Proof.
  intros HM Hle. unfold ulp_exponent, ge_pow2, emin.
  set (k := Z.log2 (Z.pos n) - Z.log2 (Z.pos d)).
  assert (k ≤ 53) as Hk.
  { assert (Z.log2 (Z.pos n) ≤ Z.log2 (Z.pos d * 2 ^ 53)) as Hlog
      by (apply Z.log2_le_mono; nia).
    rewrite Z.log2_mul_pow2 in Hlog by lia. lia. }
  destruct (0 <=? k) eqn:Hsign; [|repeat case_match; lia].
  destruct (Z.pos d * 2 ^ k <=? Z.pos n) eqn:Hge; [|lia].
  enough (k < 53) by lia.
  apply (Z.pow_lt_mono_r_iff 2); [lia..|].
  assert (0 < 2 ^ k) by (apply Z.pow_pos_nonneg; lia). nia.
Qed.

(** Rounding does not cross a non-negative integer below [2^53]: such an
    integer is a float. *)
Lemma round_le_int (x : Q) (M : Z) :
  0 ≤ M < 2 ^ 53 → (x <= inject_Z M)%Q → (round x <= inject_Z M)%Q.
Proof.
  intros HM Hx. unfold round. destruct x as [[|n|n] d]; simpl.
  - unfold Qle; simpl. lia.
  - unfold round_pos. unfold Qle in Hx; simpl in Hx.
    apply round_at_le_int; [apply (ulp_exponent_nonpos n d M)|]; lia.
  - pose proof (round_at_nonneg n d (ulp_exponent n d)) as Hpos.
    unfold round_pos. assert (0 <= inject_Z M)%Q by (unfold Qle; simpl; lia).
    lra.
Qed.

Lemma overflows_le_negative (q bound : Q) :
  (q <= bound)%Q → (bound < inject_Z (2 ^ emax))%Q →
  overflows q = true → is_negative q = true.
Proof.
  unfold overflows, is_negative. intros Hq Hbound Hover%Qle_bool_iff.
  destruct (Qlt_le_dec q 0) as [Hneg|Hpos].
  - unfold Qlt in Hneg; simpl in Hneg. lia.
  - rewrite Qabs_pos in Hover by done. lra.
Qed.

Lemma scale_mono m1 m2 e : m1 ≤ m2 → (scale m1 e <= scale m2 e)%Q.
Proof.
  intros Hm. unfold scale. case_match; unfold Qle; simpl; [|nia].
  assert (0 ≤ 2 ^ e) by (apply Z.pow_nonneg; lia). nia.
Qed.

(** Rounding at [e] does not cross a multiple of [2^e]. *)
Lemma round_at_le n d e R :
  Z.pos n * 2 ^ Z.max 0 (- e) ≤ R * (Z.pos d * 2 ^ Z.max 0 e) →
  (round_at n d e <= scale R e)%Q.
Proof.
  intros Hle. unfold round_at. apply scale_mono.
  set (num := Z.pos n * 2 ^ Z.max 0 (- e)) in *.
  set (den := Z.pos d * 2 ^ Z.max 0 e) in *.
  assert (0 < den) as Hden
    by (assert (0 < 2 ^ Z.max 0 e) by (apply Z.pow_pos_nonneg; lia);
        unfold den; nia).
  pose proof (Z.div_mod num den ltac:(lia)) as Hdiv.
  pose proof (Z.mod_pos_bound num den ltac:(lia)) as Hmod.
  destruct (_ || _) eqn:Hup.
  - assert (0 < num `mod` den) as Hr.
    { apply orb_true_iff in Hup as [Hup|[Hup _]%andb_true_iff]; lia. }
    nia.
  - nia.
Qed.

Lemma ulp_exponent_le n d J :
  0 ≤ J → Z.pos n ≤ 2 ^ J * Z.pos d → ulp_exponent n d ≤ J.
Proof.
  intros HJ Hle. unfold ulp_exponent, emin.
  set (k := Z.log2 (Z.pos n) - Z.log2 (Z.pos d)).
  assert (k ≤ J) as Hk.
  { assert (Z.log2 (Z.pos n) ≤ Z.log2 (Z.pos d * 2 ^ J)) as Hlog
      by (apply Z.log2_le_mono; lia).
    rewrite Z.log2_mul_pow2 in Hlog by lia. lia. }
  case_match; lia.
Qed.

Lemma round_pos_le_pow2 n d J :
  0 ≤ J → Z.pos n ≤ 2 ^ J * Z.pos d → (round_pos n d <= inject_Z (2 ^ J))%Q.
Proof.
  intros HJ Hle. unfold round_pos.
  pose proof (ulp_exponent_le n d J HJ Hle) as He.
  set (e := ulp_exponent n d) in *. clearbody e.
  destruct (Z.le_gt_cases 0 e) as [Hpos|Hneg].
  - assert (2 ^ J = 2 ^ (J - e) * 2 ^ e) as HJe
      by (rewrite <-Z.pow_add_r by lia; f_equal; lia).
    eapply Qle_trans; [apply (round_at_le n d e (2 ^ (J - e)))|].
    + rewrite (Z.max_l 0 (- e)), (Z.max_r 0 e), Z.pow_0_r by lia. nia.
    + unfold scale. replace (0 <=? e) with true by lia.
      rewrite <-HJe. apply Qle_refl.
  - assert (0 < 2 ^ (- e)) by (apply Z.pow_pos_nonneg; lia).
    eapply Qle_trans; [apply (round_at_le n d e (2 ^ J * 2 ^ (- e)))|].
    + rewrite (Z.max_r 0 (- e)), (Z.max_l 0 e), Z.pow_0_r by lia. nia.
    + apply scale_le_int; lia.
Qed.

(** Rounding does not take a number past a power of two. *)
Lemma round_abs_le_pow2 (x : Q) J :
  0 ≤ J → (Qabs x <= inject_Z (2 ^ J))%Q →
  (Qabs (round x) <= inject_Z (2 ^ J))%Q.
Proof.
  intros HJ Hx. assert (0 ≤ 2 ^ J) by (apply Z.pow_nonneg; lia).
  unfold round. destruct x as [[|n|n] d]; cbn [Qnum Qden];
    unfold Qle in Hx; simpl in Hx.
  - unfold Qle; simpl. lia.
  - rewrite Qabs_pos by apply round_at_nonneg.
    apply round_pos_le_pow2; [done|lia].
  - rewrite Qabs_opp, Qabs_pos by apply round_at_nonneg.
    apply round_pos_le_pow2; [done|lia].
Qed.

Lemma not_overflows_le (q : Q) J :
  J < emax → (Qabs q <= inject_Z (2 ^ J))%Q → overflows q = false.
Proof.
  intros HJ Hq. unfold overflows.
  destruct (Qle_bool _ _) eqn:Hover; [|done].
  apply Qle_bool_iff in Hover.
  pose proof (Qle_trans _ _ _ Hover Hq) as Hpow.
  unfold Qle in Hpow; cbn [Qnum Qden inject_Z] in Hpow.
  rewrite !Z.mul_1_r in Hpow. unfold emax in *.
  assert (2 ^ J < 2 ^ 1024); [|lia].
  destruct (Z.le_gt_cases 0 J) as [Hpos|Hneg].
  - apply Z.pow_lt_mono_r; lia.
  - rewrite (Z.pow_neg_r 2 J) by lia. by apply Z.pow_pos_nonneg.
Qed.

(** The rounding on values whose binary64 neighbours are known: [1/3],
    [1/10], two ties above [2^53], and a tie in the subnormal range. *)
Example round_examples :
  Qred (round (1 # 3)) = (6004799503160661 # 18014398509481984)%Q
  ∧ Qred (round (1 # 10)) = (3602879701896397 # 36028797018963968)%Q
  ∧ Qred (round (inject_Z (2 ^ 53 + 1))) = inject_Z (2 ^ 53)
  ∧ Qred (round (inject_Z (2 ^ 53 + 3))) = inject_Z (2 ^ 53 + 4)
  ∧ Qred (round (3 # 2 ^ 1075)) = (1 # 2 ^ 1073)%Q
  ∧ true_div (2 ^ 1024) 1 = Raise OverflowError.
Proof. split_and!; by vm_compute. Qed.

(** [(a / b) * 100] as [PyFloat] computes it and as [SpecFloat] does, for
    the numerators from -40 to 40 over the denominators from 1 to 40. *)
Lemma percent_agrees_with_SpecFloat :
  forallb (λ a, forallb (SpecFloatCheck.agree a) (seqZ 1 40)) (seqZ (-40) 81)
  = true.
Proof. by vm_compute. Qed.

End PyFloatFacts.

Section CompressorFacts.

Context `{PdfLibrary}.

Import PyFloat PyFloatFacts.

(** The quotient [(o - c) / o] of the statistics, for sizes [o > 0] and
    [c >= 0]. *)
Lemma ratio_le_1 o c q :
  0 < o → 0 ≤ c → true_div (o - c) o = Ok (Finite q) → (q <= 1)%Q.
Proof.
  intros Ho Hc. unfold true_div.
  replace (o =? 0) with false by lia. case_match; [done|]. intros [= <-].
  apply (round_le_int _ 1); [lia|].
  unfold Qle; simpl. rewrite Z2Pos.id by lia. nia.
Qed.

Lemma true_div_finite a b x : true_div a b = Ok x → ∃ q, x = Finite q.
Proof. unfold true_div. repeat case_match; intros [= <-]; eauto. Qed.

Lemma percent_le_100 q : (q <= 1)%Q → le_Q (mul (Finite q) (Finite 100)) 100.
Proof.
  intros Hq. unfold mul.
  assert (round (q * 100) <= inject_Z 100)%Q as Hr.
  { apply round_le_int; [lia|]. change (inject_Z 100) with 100%Q. lra. }
  destruct (overflows _) eqn:Hover; simpl; [|done].
  by apply (overflows_le_negative _ (inject_Z 100)).
Qed.

Lemma compression_stats_spec o c st :
  0 ≤ c → compression_stats o c = Ok st →
  original_size st = o ∧ compressed_size st = c
  ∧ (o > 0 → ∃ q, true_div (o - c) o = Ok q
               ∧ reduction st = Float (mul q (Finite 100)))
  ∧ (o ≤ 0 → reduction st = Int 0)
  ∧ number_le (reduction st) 100.
Proof.
  intros Hc. unfold compression_stats. case_decide as Ho.
  - destruct (true_div (o - c) o) as [x|] eqn:Hdiv; [|done].
    intros [= <-]; simpl. split_and!; [done..| |lia|].
    + intros _. by exists x.
    + destruct (true_div_finite _ _ _ Hdiv) as [q ->].
      apply percent_le_100. apply (ratio_le_1 o c); [lia|done..].
  - intros [= <-]; simpl. split_and!; [done..|lia|done|].
    unfold Qle; simpl. lia.
Qed.

(** On the sizes of [bytes] objects the division of the statistics does
    not overflow. *)
Lemma true_div_ok o c :
  0 < o → 0 ≤ c ≤ 2 ^ 63 → ∃ q, true_div (o - c) o = Ok (Finite q).
Proof.
  intros Ho Hc. unfold true_div. replace (o =? 0) with false by lia.
  rewrite (not_overflows_le _ 63); [by eexists|done|].
  apply round_abs_le_pow2; [lia|].
  unfold Qle; simpl. rewrite Z2Pos.id by lia. nia.
Qed.

Lemma compression_stats_ok o c :
  0 ≤ c ≤ 2 ^ 63 → ∃ st, compression_stats o c = Ok st.
Proof.
  intros Hc. unfold compression_stats. case_decide as Ho; [|by eexists].
  destruct (true_div_ok o c) as [q ->]; [lia|done|]. by eexists.
Qed.

(** C6. The statistics [compress_pdf] returns hold the two sizes, and a
    reduction that is [((original_size - compressed_size) / original_size)
    * 100] in float arithmetic when the original size is positive and [0]
    when it is zero; the reduction is at most 100. The call returns them
    whenever the document can be written back (the size of a [bytes]
    object is below [2^63]). *)
Theorem compress_pdf_stats (input_bytes : bytes) (quality : string) :
  (∀ output_bytes stats,
     compress_pdf input_bytes quality = Ok (output_bytes, stats) →
     original_size stats = len input_bytes
     ∧ compressed_size stats = len output_bytes
     ∧ (len input_bytes > 0 →
        ∃ q, true_div (len input_bytes - len output_bytes) (len input_bytes)
             = Ok q
          ∧ reduction stats = Float (mul q (Finite 100)))
     ∧ (len input_bytes = 0 → reduction stats = Int 0)
     ∧ number_le (reduction stats) 100)
  ∧ (∀ output_bytes,
       compress_document input_bytes = Ok output_bytes →
       len output_bytes ≤ 2 ^ 63 →
       ∃ stats, compress_pdf input_bytes quality = Ok (output_bytes, stats)).
Proof.
  unfold compress_pdf. split.
  - intros output_bytes stats.
    destruct (compress_document input_bytes) as [out|]; [simpl|done].
    destruct (compression_stats _ _) as [st|] eqn:Hstats; [simpl|done].
    intros [= <- <-]. assert (0 ≤ len out) as Hout by (unfold len; lia).
    destruct (compression_stats_spec _ _ _ Hout Hstats)
      as (? & ? & ? & Hzero & ?).
    split_and!; [done..| |done]. intros Hlen. apply Hzero. lia.
  - intros output_bytes -> Hlen. simpl.
    destruct (compression_stats_ok (len input_bytes) (len output_bytes))
      as [st ->]; [unfold len in *; lia|].
    by exists st.
Qed.

(** C10. The [quality] argument does not enter the result of
    [compress_pdf]: two calls on the same bytes return the same bytes and
    the same statistics, or raise the same exception, whatever the two
    quality values. *)
Theorem compress_pdf_quality_independent (input_bytes : bytes)
    (q1 q2 : string) :
  compress_pdf input_bytes q1 = compress_pdf input_bytes q2.
Proof. reflexivity. Qed.

End CompressorFacts.

(** ** The properties at work on [OneBytePages] *)

Module OneBytePagesFacts.

Import OneBytePages.

(** The pages a merger holds: its bytes without the padding. *)
Definition pages_held (merger : list byte) : list byte :=
  List.filter is_page merger.

Lemma filter_is_page_idem l :
  List.filter is_page (List.filter is_page l) = List.filter is_page l.
Proof.
  induction l as [|b l IH]; simpl; [done|].
  destruct (is_page b) eqn:Hb; simpl; [|done]. by rewrite Hb, IH.
Qed.

Lemma read_pages b reader :
  read b = Ok reader → List.filter is_page reader = reader.
Proof.
  unfold read. repeat case_match; try done.
  intros [= <-]. apply filter_is_page_idem.
Qed.

Lemma held_new : pages_held [] = [].
Proof. reflexivity. Qed.

Lemma held_append merger b reader :
  read b = Ok reader →
  ∃ merger', append merger b = Ok merger'
    ∧ pages_held merger' = (pages_held merger ++ reader)%list.
Proof.
  intros Hread. unfold append. rewrite Hread. eexists; split; [done|].
  unfold pages_held. by rewrite List.filter_app, (read_pages b reader).
Qed.

Lemma held_write merger :
  ∃ out reader, write merger = Ok out ∧ read out = Ok reader
    ∧ reader = pages_held merger.
Proof.
  eexists _, _. split_and!; [done| |done].
  simpl. by rewrite filter_is_page_idem.
Qed.

End OneBytePagesFacts.

(** Dropping the part [x-2], which stands for nothing, from [1,x-2,3]. *)
Lemma parse_page_range_lenient_witness :
  parse_page_range 4300 "1,x-2,3" 5 = parse_page_range 4300 "1,3" 5.
Proof.
  apply (proj1 (proj2 (parse_page_range_lenient 4300)) "1" "x-2" "3" 5).
  - reflexivity.
  - intros n (a & b & start & end_ & Hsplit & Ha & _).
    vm_compute in Hsplit. injection Hsplit as <- <-.
    vm_compute in Ha. discriminate Ha.
Defined.

(** The three pages [A], [B], [C] split into [page_1.pdf] to [page_3.pdf]. *)
Lemma split_pdf_all_witness :
  ∃ results,
    split_pdf (H := OneBytePages.library) 4300 [x25; x41; x42; x43] "all" ""
    = Ok results
    ∧ len results = 3
    ∧ ∀ i : nat, Z.of_nat i < 3 →
        ∃ out,
          page_output (H := OneBytePages.library) [x41; x42; x43] (Z.of_nat i)
          = Ok out
          ∧ results !! i
            = Some ("page_" +:+ pretty (Z.of_nat i + 1) +:+ ".pdf", out).
Proof.
  apply (split_pdf_all (H := OneBytePages.library) 4300
           [x25; x41; x42; x43] "" [x41; x42; x43]).
  - reflexivity.
  - intros i Hi. change (0 ≤ i < 3) in Hi.
    assert (i = 0 ∨ i = 1 ∨ i = 2) as [->|[->| ->]] by lia;
      eexists; vm_compute; reflexivity.
Defined.

(** A two-page document in mode ["range"]. *)
Lemma split_pdf_empty_selection_witness :
  (∀ page_range,
     parse_page_range 4300 page_range 2 = Ok [] →
     split_pdf (H := OneBytePages.library) 4300 [x25; x41; x42] "range"
       page_range = Ok [])
  ∧ split_pdf (H := OneBytePages.library) 4300 [x25; x41; x42] "range" ""
    = Ok [].
Proof.
  apply (split_pdf_empty_selection (H := OneBytePages.library) 4300
           [x25; x41; x42] "range" [x41; x42]).
  - reflexivity.
  - discriminate.
Defined.

(** A document whose second page is damaged: the split raises. *)
Lemma split_pdf_fail_fast_witness :
  ∃ before idx' after e',
    [0; 1; 2] = (before ++ idx' :: after)%list
    ∧ (∀ j, j ∈ before →
         ∃ out, page_output (H := OneBytePages.library) [x41; x21; x42] j
                = Ok out)
    ∧ page_output (H := OneBytePages.library) [x41; x21; x42] idx' = Raise e'
    ∧ split_pdf (H := OneBytePages.library) 4300 [x25; x41; x21; x42] "all" ""
      = Raise e'.
Proof.
  apply (split_pdf_fail_fast (H := OneBytePages.library) 4300
           [x25; x41; x21; x42] "all" "" [x41; x21; x42] [0; 1; 2] 1
           (PyPdfError "damaged page")).
  - reflexivity.
  - reflexivity.
  - apply elem_of_cons. right. apply elem_of_cons. by left.
  - reflexivity.
Defined.

(** The pages [A], [B] and the page [C], merged: [A], [B], [C]. *)
Lemma merge_pdfs_pages_witness :
  ∃ out reader,
    merge_pdfs (H := OneBytePages.library) [[x25; x41; x42]; [x25; x00; x43]]
    = Ok out
    ∧ OneBytePages.read out = Ok reader
    ∧ reader = ([x41; x42] ++ [x43])%list
    ∧ length reader = (2 + 1)%nat.
Proof.
  apply (proj2 (merge_pdfs_pages (H := OneBytePages.library)
                  OneBytePagesFacts.pages_held OneBytePagesFacts.held_new
                  OneBytePagesFacts.held_append OneBytePagesFacts.held_write)
           [x25; x41; x42] [x25; x00; x43] [x41; x42] [x43]);
    reflexivity.
Defined.

(** One document, and none, merged. *)
Lemma merge_pdfs_degenerate_witness :
  (∃ out reader,
     merge_pdfs (H := OneBytePages.library) [[x25; x41; x42]] = Ok out
     ∧ OneBytePages.read out = Ok reader
     ∧ reader = [x41; x42])
  ∧ (∃ out reader,
       merge_pdfs (H := OneBytePages.library) [] = Ok out
       ∧ OneBytePages.read out = Ok reader
       ∧ reader = []).
Proof.
  destruct (merge_pdfs_degenerate (H := OneBytePages.library)
              OneBytePagesFacts.pages_held OneBytePagesFacts.held_new
              OneBytePagesFacts.held_append OneBytePagesFacts.held_write)
    as [Hone Hnone].
  split; [|exact Hnone].
  apply (Hone [x25; x41; x42] [x41; x42]). reflexivity.
Defined.

(** Five bytes, two of them padding, compressed to three: a reduction of
    [40.0] per cent. *)
Lemma compress_pdf_stats_witness :
  compress_pdf (H := OneBytePages.library) [x25; x41; x00; x00; x42] "medium"
  = Ok ([x25; x41; x42],
        {| original_size := 5; compressed_size := 3;
           reduction := Float (PyFloat.Finite (40 * 2 ^ 47 # 2 ^ 47)) |})
  ∧ number_le (Float (PyFloat.Finite (40 * 2 ^ 47 # 2 ^ 47))) 100.
Proof.
  split; [reflexivity|].
  apply (proj1 (compress_pdf_stats (H := OneBytePages.library)
                  [x25; x41; x00; x00; x42] "medium") [x25; x41; x42]
           {| original_size := 5; compressed_size := 3;
              reduction := Float (PyFloat.Finite (40 * 2 ^ 47 # 2 ^ 47)) |}).
  reflexivity.
Defined.

(** * More properties of the code *)

(** ** Decimal numbers: [str] and [int] *)

Section DecimalFacts.

Variable max_str_digits : N.

(** A goal about a digit [d < 10], closed by computing it for each digit. *)
Ltac by_digit d :=
  let H := fresh in
  assert (d = 0 ∨ d = 1 ∨ d = 2 ∨ d = 3 ∨ d = 4 ∨ d = 5 ∨ d = 6 ∨ d = 7
          ∨ d = 8 ∨ d = 9)%N as H by lia;
  repeat (destruct H as [->|H]; [reflexivity|]); subst d; reflexivity.

Lemma digit_of_pretty_N_char (d : N) :
  (d < 10)%N → PyInt.digit_of (pretty_N_char d) = Some (Z.of_N d).
Proof.
  intros Hd.
  by_digit d.
Qed.

(** The digits [str] writes for [x], read from the left: the value read so
    far is shifted by as many places as [x] has digits. *)
Lemma scan_pretty_N_go (x : N) :
  (0 < x)%N →
  ∃ k : N, (0 < k)%N ∧ 10 ^ (Z.of_N k - 1) ≤ Z.of_N x < 10 ^ Z.of_N k
    ∧ ∀ acc ndigits s,
        PyInt.scan_digits acc ndigits (pretty_N_go x s)
        = PyInt.scan_digits (acc * 10 ^ Z.of_N k + Z.of_N x) (ndigits + k) s.
Proof.
  induction (N.lt_wf_0 x) as [x _ IH]. intros Hx.
  assert (x `mod` 10 < 10)%N as Hmod by (apply N.mod_lt; lia).
  pose proof (N.div_mod x 10 ltac:(lia)) as Hdiv.
  pose proof (N.le_0_l (x `div` 10)) as Hquot.
  pose proof (N.le_0_l (x `mod` 10)) as Hrem.
  destruct (decide (x `div` 10 = 0)%N) as [Hsmall|Hbig].
  - assert (x < 10)%N by lia.
    exists 1%N. change (10 ^ (Z.of_N 1 - 1)) with 1.
    change (10 ^ Z.of_N 1) with 10.
    split_and!; [lia..|].
    intros acc ndigits s.
    rewrite pretty_N_go_step, Hsmall, pretty_N_go_0 by done.
    cbn [PyInt.scan_digits]. rewrite digit_of_pretty_N_char by done.
    f_equal. lia.
  - destruct (IH (x `div` 10)%N) as (k & Hk & Hbound & Hscan); [lia..|].
    exists (k + 1)%N. replace (Z.of_N (k + 1)) with (Z.of_N k + 1) by lia.
    replace (Z.of_N k + 1 - 1) with (Z.of_N k - 1 + 1) by lia.
    rewrite !Z.pow_add_r, !Z.pow_1_r by lia.
    split_and!; [lia|lia|lia|].
    intros acc ndigits s. rewrite pretty_N_go_step, Hscan by done.
    cbn [PyInt.scan_digits]. rewrite digit_of_pretty_N_char by done.
    f_equal; lia.
Qed.

Lemma pretty_N_go_head (x : N) s :
  (0 < x)%N →
  ∃ d rest, (d < 10)%N ∧ pretty_N_go x s = String (pretty_N_char d) rest.
Proof.
  revert s. induction (N.lt_wf_0 x) as [x _ IH]. intros s Hx.
  assert (x `mod` 10 < 10)%N as Hmod by (apply N.mod_lt; lia).
  pose proof (N.div_mod x 10 ltac:(lia)) as Hdiv.
  rewrite pretty_N_go_step by done.
  destruct (decide (x `div` 10 = 0)%N) as [Hsmall|Hbig].
  - rewrite Hsmall, pretty_N_go_0. eauto.
  - apply IH; [apply N.div_lt; lia|lia].
Qed.

(** [int] on a string that starts with a digit. *)
Lemma int_digit_head (d : N) rest :
  (d < 10)%N →
  PyInt.int max_str_digits (String (pretty_N_char d) rest)
  = let '(v, ndigits, rest') :=
      PyInt.scan_digits 0 0 (String (pretty_N_char d) rest) in
    if PyInt.too_many_digits max_str_digits ndigits then Raise ValueError
    else match PyInt.skip_spaces rest' with
         | EmptyString => Ok v
         | String _ _ => Raise ValueError
         end.
Proof.
  intros Hd.
  by_digit d.
Qed.

Lemma int_pretty_N (x : N) :
  (0 < x)%N → Z.of_N x < 10 ^ 640 →
  PyInt.int max_str_digits (pretty_N_go x "") = Ok (Z.of_N x).
Proof.
  intros Hx Hbound.
  destruct (pretty_N_go_head x "" Hx) as (d & rest & Hd & Hhead).
  destruct (scan_pretty_N_go x Hx) as (k & Hk & [Hlow _] & Hscan).
  rewrite Hhead, int_digit_head, <-Hhead, Hscan by done.
  cbn [PyInt.scan_digits PyInt.skip_spaces].
  assert (Z.of_N k ≤ 640) as Hdigits.
  { enough (Z.of_N k - 1 < 640) by lia.
    apply (Z.pow_lt_mono_r_iff 10); lia. }
  unfold PyInt.too_many_digits.
  assert ((640 <? 0 + k)%N = false) as -> by (apply N.ltb_ge; lia).
  simpl. f_equal.
Qed.

(** [int(str(n)) == n], for the numbers of at most 640 digits, which no
    setting of the digit limit refuses. *)
Lemma int_pretty (n : Z) :
  - 10 ^ 640 < n < 10 ^ 640 → PyInt.int max_str_digits (pretty n) = Ok n.
Proof.
  intros Hn. destruct n as [|p|p].
  - reflexivity.
  - apply (int_pretty_N (N.pos p)); lia.
  - change (pretty (Z.neg p)) with (String "-" (pretty_N_go (N.pos p) "")).
    pose proof (int_pretty_N (N.pos p) ltac:(lia) ltac:(lia)) as Hint.
    destruct (pretty_N_go_head (N.pos p) "" ltac:(lia))
      as (d & rest & Hd & Hhead).
    unfold PyInt.int at 1. cbn [PyInt.skip_spaces].
    change (PyInt.is_space "-") with false. cbv iota.
    assert (PyInt.unsigned max_str_digits (pretty_N_go (N.pos p) "")
            = Ok (Z.pos p)) as ->; [|done].
    etrans; [|exact Hint]. rewrite Hhead. clear -Hd.
    by_digit d.
Qed.

End DecimalFacts.

(** ** More on the page-range parser *)

Section ParserExtras.

Variable max_str_digits : N.

Lemma contains_app c s1 s2 :
  Str.contains c (s1 +:+ s2) = Str.contains c s1 || Str.contains c s2.
Proof.
  induction s1 as [|a s1 IH]; simpl; [done|]. by case_decide.
Qed.

Lemma remove_absent c s : Str.contains c s = false → Str.remove c s = s.
Proof.
  induction s as [|a s IH]; simpl; [done|].
  case_decide; [done|]. intros Hs. by rewrite IH.
Qed.

Lemma contains_pretty_N_go c (x : N) s :
  PyInt.digit_of c = None → Str.contains c s = false →
  Str.contains c (pretty_N_go x s) = false.
Proof.
  intros Hc. revert s. induction (N.lt_wf_0 x) as [x _ IH]. intros s Hs.
  destruct (decide (x = 0)%N) as [->|Hx]; [by rewrite pretty_N_go_0|].
  rewrite pretty_N_go_step by lia.
  assert (x `mod` 10 < 10)%N as Hmod by (apply N.mod_lt; lia).
  apply IH; [apply N.div_lt; lia|]. simpl. rewrite decide_False; [done|].
  intros <-. rewrite digit_of_pretty_N_char in Hc; done.
Qed.

(** A decimal number has digits only. *)
Lemma contains_pretty c (n : Z) :
  0 ≤ n → PyInt.digit_of c = None → Str.contains c (pretty n) = false.
Proof.
  intros Hn Hc. destruct n as [|p|p]; [|by apply contains_pretty_N_go|lia].
  simpl. rewrite decide_False; [done|]. by intros <-.
Qed.

Lemma parts_of_pretty (n : Z) : 0 ≤ n → parts_of (pretty n) = [pretty n].
Proof.
  intros Hn. rewrite parts_of_no_comma by by apply contains_pretty.
  by rewrite remove_absent by by apply contains_pretty.
Qed.

Lemma Sorted_seqZ m n : Sorted Z.le (seqZ m n).
Proof.
  destruct (decide (n ≤ 0)) as [Hn|Hn];
    [rewrite seqZ_nil by done; constructor|].
  rewrite <-(Z2Nat.id n) by lia. generalize (Z.to_nat n) as k. clear.
  intros k. revert m. induction k as [|k IH]; intros m.
  - rewrite seqZ_nil by done. constructor.
  - rewrite seqZ_cons by lia.
    replace (Z.pred (Z.of_nat (S k))) with (Z.of_nat k) by lia.
    constructor; [apply IH|].
    destruct k as [|k]; [rewrite seqZ_nil by done; constructor|].
    rewrite seqZ_cons by lia. constructor. lia.
Qed.

(** Two ascending lists without duplicates that have the same members are
    the same list. *)
Lemma ascending_ext (l1 l2 : list Z) :
  Sorted Z.le l1 → NoDup l1 → Sorted Z.le l2 → NoDup l2 →
  (∀ j, j ∈ l1 ↔ j ∈ l2) → l1 = l2.
Proof.
  intros Hs1 Hn1 Hs2 Hn2 Hmem.
  apply (Sorted_unique Z.le); [done..|]. by apply NoDup_Permutation.
Qed.

(** X1. A page number of the document, written in decimal, selects that
    page and no other. *)
Theorem parse_page_range_single (k total_pages : Z) :
  1 ≤ k ≤ total_pages → k < 10 ^ 640 →
  parse_page_range max_str_digits (pretty k) total_pages = Ok [k - 1].
Proof.
  intros Hk Hbound.
  destruct (parse_page_range_spec max_str_digits (pretty k) total_pages)
    as (pages & -> & Hsorted & Hnodup & Hmem).
  f_equal.
  apply ascending_ext; [done..|repeat constructor|apply NoDup_singleton|].
  intros j. rewrite Hmem, parts_of_pretty, list_elem_of_singleton by lia.
  assert (∀ n, denotes max_str_digits (pretty k) n ↔ n = k) as Hden.
  { intros n. unfold denotes.
    rewrite contains_pretty, int_pretty by (done || lia). naive_solver. }
  split.
  - intros (_ & part & Hpart & Hpage). apply list_elem_of_singleton in Hpart.
    subst part. apply Hden in Hpage. lia.
  - intros ->. split; [lia|]. exists (pretty k).
    split; [by apply list_elem_of_singleton|]. apply Hden. lia.
Qed.





(** X3. The parts of a page range are put together as sets: what two
    ranges joined by a comma select is what either of them selects, so the
    order of the parts and a part given twice make no difference. *)
Theorem parse_page_range_union (s1 s2 : string) (total_pages : Z) :
  (∃ pages1 pages2 pages,
     parse_page_range max_str_digits s1 total_pages = Ok pages1
     ∧ parse_page_range max_str_digits s2 total_pages = Ok pages2
     ∧ parse_page_range max_str_digits (s1 +:+ "," +:+ s2) total_pages
       = Ok pages
     ∧ ∀ i, i ∈ pages ↔ i ∈ pages1 ∨ i ∈ pages2)
  ∧ parse_page_range max_str_digits (s1 +:+ "," +:+ s2) total_pages
    = parse_page_range max_str_digits (s2 +:+ "," +:+ s1) total_pages
  ∧ parse_page_range max_str_digits (s1 +:+ "," +:+ s1) total_pages
    = parse_page_range max_str_digits s1 total_pages.
Proof.
  assert (∀ s s', ∃ pages pages' both,
    parse_page_range max_str_digits s total_pages = Ok pages
    ∧ parse_page_range max_str_digits s' total_pages = Ok pages'
    ∧ parse_page_range max_str_digits (s +:+ "," +:+ s') total_pages = Ok both
    ∧ Sorted Z.le both ∧ NoDup both
    ∧ ∀ i, i ∈ both ↔ i ∈ pages ∨ i ∈ pages') as Hjoin.
  { intros s s'.
    destruct (parse_page_range_spec max_str_digits s total_pages)
      as (pages & -> & _ & _ & Hmem).
    destruct (parse_page_range_spec max_str_digits s' total_pages)
      as (pages' & -> & _ & _ & Hmem').
    destruct (parse_page_range_spec max_str_digits (s +:+ "," +:+ s')
                total_pages) as (both & -> & ? & ? & Hboth).
    exists pages, pages', both. split_and!; [done..|].
    intros i. rewrite Hboth, Hmem, Hmem', parts_of_app.
    setoid_rewrite elem_of_app. naive_solver. }
  split_and!.
  - destruct (Hjoin s1 s2) as (pages1 & pages2 & both & ? & ? & ? & _ & _ & ?).
    by exists pages1, pages2, both.
  - destruct (Hjoin s1 s2) as (p1 & p2 & l & H1 & H2 & -> & ? & ? & Hl).
    destruct (Hjoin s2 s1) as (p2' & p1' & l' & H2' & H1' & -> & ? & ? & Hl').
    assert (p1' = p1 ∧ p2' = p2) as [-> ->] by (split; congruence).
    f_equal. apply ascending_ext; [done..|]. intros i. rewrite Hl, Hl'.
    tauto.
  - destruct (Hjoin s1 s1) as (p1 & p1' & l & H1 & H1' & -> & ? & ? & Hl).
    destruct (parse_page_range_spec max_str_digits s1 total_pages)
      as (pages & Hparse & ? & ? & _).
    assert (p1 = pages ∧ p1' = pages) as [-> ->] by (split; congruence).
    rewrite Hparse. f_equal.
    apply ascending_ext; [done..|]. intros i. rewrite Hl. tauto.
Qed.

(** X4. The number of pages only cuts the selection off: over a document
    of fewer pages the same range selects the same pages, less those the
    shorter document does not have. *)
Theorem parse_page_range_total_mono (range_str : string) (total total' : Z) :
  total ≤ total' →
  ∃ pages pages',
    parse_page_range max_str_digits range_str total = Ok pages
    ∧ parse_page_range max_str_digits range_str total' = Ok pages'
    ∧ ∀ i, i ∈ pages ↔ i ∈ pages' ∧ i < total.
Proof.
  intros Hle.
  destruct (parse_page_range_spec max_str_digits range_str total)
    as (pages & -> & _ & _ & Hmem).
  destruct (parse_page_range_spec max_str_digits range_str total')
    as (pages' & -> & _ & _ & Hmem').
  exists pages, pages'. split_and!; [done..|].
  intros i. rewrite Hmem, Hmem'. naive_solver lia.
Qed.

(** X5. The parser never selects more pages than the document has. *)
Theorem parse_page_range_length (range_str : string) (total_pages : Z) :
  ∃ pages, parse_page_range max_str_digits range_str total_pages = Ok pages
    ∧ len pages ≤ Z.max 0 total_pages.
Proof.
  destruct (parse_page_range_spec max_str_digits range_str total_pages)
    as (pages & Hparse & _ & Hnodup & Hmem).
  exists pages. split; [done|].
  assert (pages ⊆+ seqZ 0 total_pages) as Hsub.
  { apply NoDup_submseteq; [done|]. intros i [Hi _]%Hmem.
    apply elem_of_seqZ. lia. }
  apply submseteq_length in Hsub. rewrite length_seqZ in Hsub.
  unfold len. lia.
Qed.

(** X6. Spaces count for nothing wherever they stand, inside a number
    too: [1 2] is read as page 12. *)
Theorem parse_page_range_spaces (s1 s2 : string) (total_pages : Z) :
  parse_page_range max_str_digits (s1 +:+ " " +:+ s2) total_pages
  = parse_page_range max_str_digits (s1 +:+ s2) total_pages.
Proof.
  unfold parse_page_range, parts_of. rewrite !remove_app.
  change (Str.remove " " (" " +:+ s2)) with (Str.remove " " s2). done.
Qed.

Lemma parse_nothing (range_str : string) (total_pages : Z) :
  (∀ part n, part ∈ parts_of range_str → ¬ denotes max_str_digits part n) →
  parse_page_range max_str_digits range_str total_pages = Ok [].
Proof.
  intros Hnone.
  destruct (parse_page_range_spec max_str_digits range_str total_pages)
    as (pages & -> & _ & _ & Hmem).
  f_equal. destruct pages as [|i pages]; [done|].
  destruct (proj1 (Hmem i)) as (_ & part & Hpart & Hpage); [left|].
  by destruct (Hnone part (i + 1)).
Qed.

Lemma int_empty : PyInt.int max_str_digits "" = Raise ValueError.
Proof. reflexivity. Qed.

(** X7. A part that begins or ends with a dash selects nothing: a negative
    number cannot be written, and a range needs both its ends. *)
Theorem parse_page_range_dash_edge (part : string) (total_pages : Z) :
  Str.contains "," part = false →
  parse_page_range max_str_digits ("-" +:+ part) total_pages = Ok []
  ∧ parse_page_range max_str_digits (part +:+ "-") total_pages = Ok [].
Proof.
  intros Hcomma. split; apply parse_nothing; intros p n Hp.
  - rewrite parts_of_no_comma in Hp by done.
    apply list_elem_of_singleton in Hp as ->.
    change (Str.remove " " ("-" +:+ part))
      with (String "-" (Str.remove " " part)).
    unfold denotes. cbn [Str.contains Str.split]. rewrite !decide_True by done.
    intros (a & b & start & end_ & [= <- _] & Ha & _).
    by rewrite int_empty in Ha.
  - rewrite parts_of_no_comma in Hp by (by rewrite contains_app, Hcomma).
    apply list_elem_of_singleton in Hp as ->. rewrite remove_app.
    change (Str.remove " " "-") with (String "-" "").
    unfold denotes. rewrite contains_app. cbn [Str.contains].
    rewrite decide_True, orb_true_r, split_app by done.
    cbn [Str.split]. intros (a & b & start & end_ & Hsplit & _ & Hb & _).
    pose proof (split_not_nil "-" (Str.remove " " part)) as Hnil.
    destruct (Str.split "-" (Str.remove " " part)) as [|f1 [|f2 [|f3 fields]]];
      simplify_eq/=.
Qed.

End ParserExtras.

(** ** More on the splitter *)

Lemma string_length_app (s1 s2 : string) :
  String.length (s1 +:+ s2) = (String.length s1 + String.length s2)%nat.
Proof. induction s1 as [|a s1 IH]; simpl; [done|]. by rewrite IH. Qed.

Lemma string_app_inj_r (s1 s2 t : string) : s1 +:+ t = s2 +:+ t → s1 = s2.
Proof.
  revert s2. induction s1 as [|a s1 IH]; intros [|b s2] Heq.
  - done.
  - apply (f_equal String.length) in Heq.
    rewrite !string_length_app in Heq. simpl in Heq. lia.
  - apply (f_equal String.length) in Heq.
    rewrite !string_length_app in Heq. simpl in Heq. lia.
  - change (String a (s1 +:+ t) = String b (s2 +:+ t)) in Heq.
    injection Heq as -> Heq. f_equal. by apply IH.
Qed.

Lemma page_filename_inj (i j : Z) : page_filename i = page_filename j → i = j.
Proof.
  unfold page_filename. intros Heq.
  apply (inj (String.app "page_")) in Heq.
  apply string_app_inj_r in Heq. apply (inj pretty) in Heq. lia.
Qed.

Section SplitterExtras.

Context `{PdfLibrary}.
Variable max_str_digits : N.

(** The pages selected, in either mode: indices of the document, ascending,
    none twice. *)
Lemma pages_to_split_spec (mode page_range : string) (total_pages : Z) :
  ∃ selected,
    pages_to_split max_str_digits mode page_range total_pages = Ok selected
    ∧ Sorted Z.le selected ∧ NoDup selected
    ∧ ∀ idx, idx ∈ selected → 0 ≤ idx < total_pages.
Proof.
  unfold pages_to_split. case_decide.
  - eexists. split_and!; [done|apply Sorted_seqZ|apply NoDup_seqZ|].
    unfold range. intros idx Hin%elem_of_seqZ. lia.
  - destruct (parse_page_range_spec max_str_digits page_range total_pages)
      as (pages & -> & ? & ? & Hmem).
    exists pages. split_and!; [done..|]. intros idx [? _]%Hmem. lia.
Qed.

(** When the loop of [split_pdf] ends, it has added one result for each
    selected page, in the order of the selection. *)
Lemma split_pages_inv reader selected results final :
  for_each (split_page reader) results selected = Ok final →
  ∃ outs, final = (results ++ outs)%list
    ∧ Forall2 (λ idx res, res.1 = page_filename idx
                          ∧ page_output reader idx = Ok res.2) selected outs.
Proof.
  revert results. induction selected as [|idx selected IH]; intros results.
  - intros [= <-]. exists []. by rewrite app_nil_r.
  - cbn [for_each].
    destruct (page_output reader idx) as [out|e] eqn:Hout.
    2:{ by rewrite (split_page_raise _ _ _ _ Hout). }
    rewrite (split_page_ok _ _ _ _ Hout). cbn [mbind result_bind].
    intros (outs & -> & Houts)%IH.
    exists ((page_filename idx, out) :: outs). split.
    + by rewrite <-app_assoc.
    + by constructor.
Qed.

Lemma split_pdf_inv input_bytes mode page_range results :
  split_pdf max_str_digits input_bytes mode page_range = Ok results →
  ∃ reader selected,
    PdfReader input_bytes = Ok reader
    ∧ pages_to_split max_str_digits mode page_range
        (len (reader_pages reader)) = Ok selected
    ∧ Forall2 (λ idx res, res.1 = page_filename idx
                          ∧ page_output reader idx = Ok res.2)
        selected results.
Proof.
  unfold split_pdf. destruct (PdfReader input_bytes) as [reader|]; [|done].
  cbn [mbind result_bind].
  destruct (pages_to_split _ _ _ _) as [selected|] eqn:Hsel; [|done].
  cbn [mbind result_bind]. intros (outs & -> & Houts)%split_pages_inv.
  by exists reader, selected.
Qed.

Lemma Forall2_filenames reader selected (results : list (string * bytes)) :
  Forall2 (λ idx res, res.1 = page_filename idx
                      ∧ page_output reader idx = Ok res.2) selected results →
  results.*1 = page_filename <$> selected.
Proof.
  induction 1 as [|idx res selected results [Hname _] _ IH]; [done|].
  cbn [fmap list_fmap]. by rewrite Hname, <-IH.
Qed.

Lemma split_names_NoDup (input_bytes : bytes)
    (mode page_range : string) (results : list (string * bytes)) :
  split_pdf max_str_digits input_bytes mode page_range = Ok results →
  NoDup results.*1.
Proof.
  intros (reader & selected & _ & Hsel & Hres)%split_pdf_inv.
  rewrite (Forall2_filenames _ _ _ Hres).
  destruct (pages_to_split_spec mode page_range (len (reader_pages reader)))
    as (selected' & Hsel' & _ & Hnodup & _).
  assert (selected' = selected) as -> by congruence.
  apply NoDup_fmap_2_strong; [|done].
  intros i j _ _. apply page_filename_inj.
Qed.

(** X8. The results of a split have pairwise different file names, in
    either mode and whatever the page range: no entry of the archive and no
    download key is used twice. *)
Theorem split_pdf_names_distinct (input_bytes : bytes)
    (mode page_range : string) (results : list (string * bytes)) :
  split_pdf max_str_digits input_bytes mode page_range = Ok results →
  NoDup results.*1.
Proof. apply split_names_NoDup. Qed.


(** X10. A split reads only pages the document has: for every selected
    index, in either mode, the indexing [reader.pages[page_idx]] finds the
    page at that position and does not raise [IndexError]. *)
Theorem split_pdf_index_in_range (mode page_range : string)
    (reader : pdf_reader) (selected : list Z) (idx : Z) :
  pages_to_split max_str_digits mode page_range (len (reader_pages reader))
  = Ok selected →
  idx ∈ selected →
  ∃ page, reader_pages reader !! Z.to_nat idx = Some page
    ∧ getitem (reader_pages reader) idx = Ok page.
Proof.
  intros Hsel Hin.
  destruct (pages_to_split_spec mode page_range (len (reader_pages reader)))
    as (selected' & Hsel' & _ & _ & Hrange).
  assert (selected' = selected) as -> by congruence.
  specialize (Hrange idx Hin). unfold len in Hrange.
  destruct (lookup_lt_is_Some_2 (reader_pages reader) (Z.to_nat idx))
    as [page Hpage]; [lia|].
  exists page. split; [done|]. unfold getitem, len.
  replace (idx <? 0) with false by lia.
  replace ((idx <? 0) || (Z.of_nat (length (reader_pages reader)) <=? idx))
    with false by (symmetry; apply orb_false_iff; lia).
  by rewrite Hpage.
Qed.


End SplitterExtras.

(** ** More on the merger *)

Section MergerExtras.

Context `{PdfLibrary}.

(** X12. A source that cannot be appended fails the whole merge: the call
    raises the exception of the first such source, and nothing is written. *)
Theorem merge_pdfs_fail_fast (before after : list bytes) (f : bytes)
    (merger : pdf_merger) (e : exception) :
  for_each merger_append PdfMerger before = Ok merger →
  merger_append merger f = Raise e →
  merge_pdfs (before ++ f :: after) = Raise e.
Proof.
  intros Hbefore Hf. unfold merge_pdfs.
  rewrite for_each_app, Hbefore. cbn [mbind result_bind for_each].
  by rewrite Hf.
Qed.

Variable merger_pages : pdf_merger → list pdf_page.
Hypothesis merger_pages_new : merger_pages PdfMerger = [].
Hypothesis merger_pages_append : ∀ merger b reader,
  PdfReader b = Ok reader →
  ∃ merger', merger_append merger b = Ok merger'
    ∧ merger_pages merger' = (merger_pages merger ++ reader_pages reader)%list.
Hypothesis merger_pages_write : ∀ merger,
  ∃ out reader, merger_write merger = Ok out
    ∧ PdfReader out = Ok reader
    ∧ reader_pages reader = merger_pages merger.

(** X13. Merging in two steps is merging in one: with the contract of
    [PdfMerger] as for the claims, the merge of some documents, merged with
    further documents, reads back as the same pages as the merge of all of
    them at once. *)
Theorem merge_pdfs_in_steps (files1 files2 : list bytes)
    (readers1 readers2 : list pdf_reader) :
  Forall2 (λ b reader, PdfReader b = Ok reader) files1 readers1 →
  Forall2 (λ b reader, PdfReader b = Ok reader) files2 readers2 →
  ∃ first both all reader_both reader_all,
    merge_pdfs files1 = Ok first
    ∧ merge_pdfs (first :: files2) = Ok both
    ∧ merge_pdfs (files1 ++ files2) = Ok all
    ∧ PdfReader both = Ok reader_both
    ∧ PdfReader all = Ok reader_all
    ∧ reader_pages reader_both = reader_pages reader_all.
Proof.
  intros H1 H2.
  destruct (merge_pdfs_spec merger_pages merger_pages_new merger_pages_append
              merger_pages_write files1 readers1 H1)
    as (first & reader1 & Hfirst & Hread1 & Hpages1).
  destruct (merge_pdfs_spec merger_pages merger_pages_new merger_pages_append
              merger_pages_write (first :: files2) (reader1 :: readers2))
    as (both & reader_both & Hboth & Hread_both & Hpages_both);
    [by constructor|].
  destruct (merge_pdfs_spec merger_pages merger_pages_new merger_pages_append
              merger_pages_write (files1 ++ files2) (readers1 ++ readers2))
    as (all & reader_all & Hall & Hread_all & Hpages_all);
    [by apply Forall2_app|].
  exists first, both, all, reader_both, reader_all.
  split_and!; [done..|].
  rewrite Hpages_both, Hpages_all, fmap_app, concat_app, fmap_cons.
  cbn [concat]. by rewrite Hpages1.
Qed.

End MergerExtras.

(** ** The names of the downloads and the archive *)

Section NameFacts.

Lemma before_last_app sep stem ext :
  Str.contains sep ext = false →
  before_last sep (stem +:+ String sep ext) = Some stem.
Proof.
  intros Hext.
  assert (before_last sep ext = None) as Hnone.
  { induction ext as [|a ext IH]; simpl in *; [done|].
    case_decide; [done|]. by rewrite IH. }
  induction stem as [|a stem IH].
  - change ("" +:+ String sep ext) with (String sep ext). simpl.
    by rewrite Hnone, decide_True.
  - change (String a stem +:+ String sep ext)
      with (String a (stem +:+ String sep ext)).
    simpl. by rewrite IH.
Qed.

Lemma before_last_none sep s :
  Str.contains sep s = false → before_last sep s = None.
Proof.
  induction s as [|a s IH]; simpl; [done|].
  case_decide; [done|]. intros Hs. by rewrite IH.
Qed.

(** X14. The download names are built on the uploaded name less its last
    extension only: [stem.ext] gives [stem_compressed.pdf] and
    [stem_pages.zip] when [ext] has no dot (so [a.tar.gz] keeps [a.tar]),
    and a name without a dot is kept whole. *)
Theorem download_names (stem ext : string) :
  Str.contains "." ext = false →
  compressed_download_name (stem +:+ "." +:+ ext) = stem +:+ "_compressed.pdf"
  ∧ split_archive_name (stem +:+ "." +:+ ext) = stem +:+ "_pages.zip"
  ∧ compressed_download_name ext = ext +:+ "_compressed.pdf"
  ∧ split_archive_name ext = ext +:+ "_pages.zip".
Proof.
  intros Hext.
  unfold compressed_download_name, split_archive_name, rsplit1_head.
  change (stem +:+ "." +:+ ext) with (stem +:+ String "." ext).
  by rewrite before_last_app, before_last_none.
Qed.

End NameFacts.

(** ** The archive *)

Section ZipFacts.

Context `{PdfLibrary} `{ZipLibrary}.

(** What [zipfile] promises of an archive open for writing: it holds a
    sequence of entries, none when it is new, and [writestr] adds one entry
    after those it holds. *)
Variable zip_entries : zip_file → list (string * bytes).
Hypothesis zip_entries_new : zip_entries ZipFile = [].
Hypothesis zip_entries_writestr : ∀ archive archive' filename content,
  writestr archive filename content = Ok archive' →
  zip_entries archive' = (zip_entries archive ++ [(filename, content)])%list.

Lemma write_all files archive archive' :
  for_each (λ zip_file '(filename, content),
              writestr zip_file filename content) archive files = Ok archive' →
  zip_entries archive' = (zip_entries archive ++ files)%list.
Proof.
  revert archive. induction files as [|[filename content] files IH];
    intros archive; cbn [for_each].
  - intros [= <-]. by rewrite app_nil_r.
  - destruct (writestr archive filename content) as [archive1|] eqn:Hw;
      [|done].
    cbn [mbind result_bind]. intros ->%IH.
    by rewrite (zip_entries_writestr _ _ _ _ Hw), <-app_assoc.
Qed.

(** X15. The archive [create_zip] returns is that of an archive object
    holding exactly the given files, names and contents, in the given order;
    for the results of a split these are one entry per selected page, under
    pairwise different names. *)
Theorem create_zip_entries (max_str_digits : N) :
  (∀ files zip_bytes,
     create_zip files = Ok zip_bytes →
     ∃ archive, zip_getvalue archive = Ok zip_bytes
       ∧ zip_entries archive = files)
  ∧ (∀ input_bytes mode page_range results zip_bytes,
       split_pdf max_str_digits input_bytes mode page_range = Ok results →
       create_zip results = Ok zip_bytes →
       ∃ archive, zip_getvalue archive = Ok zip_bytes
         ∧ zip_entries archive = results
         ∧ NoDup (zip_entries archive).*1).
Proof.
  assert (∀ files zip_bytes,
    create_zip files = Ok zip_bytes →
    ∃ archive, zip_getvalue archive = Ok zip_bytes
      ∧ zip_entries archive = files) as Hzip.
  { intros files zip_bytes. unfold create_zip.
    destruct (for_each _ _ _) as [archive|] eqn:Hloop; [|done].
    cbn [mbind result_bind]. intros Hvalue. exists archive. split; [done|].
    by rewrite (write_all _ _ _ Hloop), zip_entries_new. }
  split; [done|].
  intros input_bytes mode page_range results zip_bytes Hsplit Hcreate.
  destruct (Hzip results zip_bytes Hcreate) as (archive & ? & Hentries).
  exists archive. split_and!; [done..|]. rewrite Hentries.
  by eapply split_names_NoDup.
Qed.

End ZipFacts.

(** ** More on the floats and the compressor *)

Module PyFloatExtras.

Import PyFloat PyFloatFacts.

(** [2^j <= n/d] *)
Definition pow2_le (j : Z) (n d : positive) : Prop :=
  Z.pos d * 2 ^ Z.max 0 j ≤ Z.pos n * 2 ^ Z.max 0 (- j).

Lemma pow2_le_mono j j' n d : j' ≤ j → pow2_le j n d → pow2_le j' n d.
Proof.
  unfold pow2_le. intros Hj Hle.
  set (A := 2 ^ Z.max 0 j) in *. set (B := 2 ^ Z.max 0 (- j)) in *.
  set (A' := 2 ^ Z.max 0 j'). set (B' := 2 ^ Z.max 0 (- j')).
  assert (0 < A ∧ 0 < B ∧ 0 < A' ∧ 0 < B') as (HA & HB & HA' & HB')
    by (split_and!; apply Z.pow_pos_nonneg; lia).
  assert (A' * B ≤ A * B') as Hpow.
  { unfold A, B, A', B'. rewrite <-!Z.pow_add_r by lia.
    apply Z.pow_le_mono_r; lia. }
  assert (Z.pos d * A' * B ≤ Z.pos n * B' * B) as Hall by nia.
  nia.
Qed.

(** The exponent [ulp_exponent] finds is not above the number. *)
Lemma pow2_le_ulp_exponent n d :
  pow2_le emin n d → pow2_le (ulp_exponent n d) n d.
Proof.
  intros Hmin. unfold ulp_exponent.
  set (k := Z.log2 (Z.pos n) - Z.log2 (Z.pos d)).
  assert (pow2_le (if ge_pow2 n d k then k else k - 1) n d) as Hfloor.
  { destruct (ge_pow2 n d k) eqn:Hge.
    - unfold ge_pow2 in Hge. unfold pow2_le.
      destruct (0 <=? k) eqn:Hk.
      + rewrite (Z.max_r 0 k), (Z.max_l 0 (- k)), Z.pow_0_r by lia. lia.
      + rewrite (Z.max_l 0 k), (Z.max_r 0 (- k)), Z.pow_0_r by lia. lia.
    - destruct (Z.log2_spec (Z.pos n) ltac:(lia)) as [Hn _].
      destruct (Z.log2_spec (Z.pos d) ltac:(lia)) as [_ Hd].
      pose proof (Z.log2_nonneg (Z.pos n)) as Ha.
      pose proof (Z.log2_nonneg (Z.pos d)) as Hb.
      set (a := Z.log2 (Z.pos n)) in *. set (b := Z.log2 (Z.pos d)) in *.
      unfold pow2_le. destruct (Z.le_gt_cases 0 (k - 1)) as [Hk|Hk].
      + rewrite (Z.max_r 0 (k - 1)), (Z.max_l 0 (- (k - 1))), Z.pow_0_r by lia.
        assert (2 ^ Z.succ b * 2 ^ (k - 1) = 2 ^ a) as Hpow
          by (rewrite <-Z.pow_add_r by lia; f_equal; lia).
        assert (0 < 2 ^ (k - 1)) by (apply Z.pow_pos_nonneg; lia). nia.
      + rewrite (Z.max_l 0 (k - 1)), (Z.max_r 0 (- (k - 1))), Z.pow_0_r by lia.
        assert (2 ^ a * 2 ^ (- (k - 1)) = 2 ^ Z.succ b) as Hpow
          by (rewrite <-Z.pow_add_r by lia; f_equal; lia).
        assert (0 < 2 ^ (- (k - 1))) by (apply Z.pow_pos_nonneg; lia). nia. }
  destruct (Z.max_spec (((if ge_pow2 n d k then k else k - 1)) - 52) emin)
    as [[_ ->]|[_ ->]]; [done|].
  eapply pow2_le_mono; [|exact Hfloor]. lia.
Qed.

Lemma scale_1_ge_min e : emin ≤ e → (1 # 2 ^ 1074 <= scale 1 e)%Q.
Proof.
  unfold emin, scale. intros He. destruct (0 <=? e) eqn:Hsign.
  - unfold Qle; simpl.
    assert (0 < 2 ^ e) by (apply Z.pow_pos_nonneg; lia). lia.
  - unfold Qle. cbn [Qnum Qden]. rewrite !Pos2Z.inj_pow, Z2Pos.id by lia.
    rewrite !Z.mul_1_l. apply Z.pow_le_mono_r; lia.
Qed.

(** A number that is at least the smallest positive float does not round
    to zero. *)
Lemma round_pos_ge_min n d :
  pow2_le emin n d → (1 # 2 ^ 1074 <= round_pos n d)%Q.
Proof.
  intros Hmin. pose proof (pow2_le_ulp_exponent n d Hmin) as He.
  unfold round_pos. set (e := ulp_exponent n d) in *.
  assert (emin ≤ e) by (unfold e, ulp_exponent; lia).
  eapply Qle_trans; [by apply scale_1_ge_min|].
  unfold round_at. apply scale_mono. unfold pow2_le in He.
  set (num := Z.pos n * 2 ^ Z.max 0 (- e)) in *.
  set (den := Z.pos d * 2 ^ Z.max 0 e) in *.
  assert (0 < den) as Hden
    by (assert (0 < 2 ^ Z.max 0 e) by (apply Z.pow_pos_nonneg; lia);
        unfold den; nia).
  assert (1 ≤ num `div` den) by (apply Z.div_le_lower_bound; lia).
  case_match; lia.
Qed.

Lemma round_ge_min (x : Q) :
  (1 # 2 ^ 1074 <= x)%Q → (1 # 2 ^ 1074 <= round x)%Q.
Proof.
  intros Hx. unfold round. destruct x as [[|n|n] d]; cbn [Qnum Qden];
    unfold Qle in Hx; cbn [Qnum Qden] in Hx; [lia| |lia].
  apply round_pos_ge_min. unfold pow2_le, emin.
  rewrite (Z.max_l 0 (-1074)), Z.pow_0_r by lia.
  change (Z.max 0 (- -1074)) with 1074.
  rewrite Pos2Z.inj_pow in Hx. lia.
Qed.

Lemma round_opp (x : Q) : round (- x) = (- round x)%Q.
Proof.
  unfold round. destruct x as [[|n|n] d]; [reflexivity..|].
  change (round_pos n d = (- - round_pos n d)%Q).
  destruct (round_pos n d) as [a b]. unfold Qopp. cbn [Qnum Qden].
  by rewrite Z.opp_involutive.
Qed.

Lemma round_le_neg_min (x : Q) :
  (x <= - (1 # 2 ^ 1074))%Q → (round x <= - (1 # 2 ^ 1074))%Q.
Proof.
  intros Hx. assert (1 # 2 ^ 1074 <= - x)%Q as Hopp by lra.
  apply round_ge_min in Hopp. rewrite round_opp in Hopp. lra.
Qed.

Lemma round_zero (x : Q) : (x == 0)%Q → round x = 0%Q.
Proof.
  unfold Qeq, round. destruct x as [[|n|n] d]; cbn [Qnum Qden]; by try lia.
Qed.

End PyFloatExtras.

Section CompressorExtras.

Context `{PdfLibrary}.

Import PyFloat PyFloatFacts PyFloatExtras.

Lemma min_float_pos : (0 < 1 # 2 ^ 1074)%Q.
Proof. reflexivity. Qed.

(** The reduction for sizes [o > 0] and [c >= 0] of [bytes] objects: a
    finite float with the sign of [o - c]. *)
Lemma reduction_sign (o c : Z) (st : stats_dict) :
  0 < o ≤ 2 ^ 63 → 0 ≤ c ≤ 2 ^ 63 →
  compression_stats o c = Ok st →
  ∃ r, reduction st = Float (Finite r)
    ∧ (c < o → (0 < r)%Q) ∧ (c = o → r = 0%Q) ∧ (o < c → (r < 0)%Q).
Proof.
  intros Ho Hc. unfold compression_stats. rewrite decide_True by lia.
  unfold true_div. replace (o =? 0) with false by lia.
  replace (Z.sgn o * (o - c)) with (o - c) by lia.
  replace (Z.abs o) with o by lia.
  set (x := (o - c) # Z.to_pos o).
  assert (Qabs x <= inject_Z (2 ^ 63))%Q as Hx.
  { unfold x, Qle. simpl. rewrite Z2Pos.id by lia. nia. }
  pose proof (round_abs_le_pow2 x 63 ltac:(lia) Hx) as Hx0.
  rewrite (not_overflows_le (round x) 63) by done.
  cbn [mbind result_bind]. unfold mul.
  set (x0 := round x) in *.
  assert (Qabs (x0 * 100) <= inject_Z (2 ^ 70))%Q as Hy.
  { rewrite Qabs_Qmult. change (Qabs 100) with 100%Q.
    assert (inject_Z (2 ^ 70) == inject_Z (2 ^ 63) * 128)%Q as ->
      by reflexivity.
    pose proof (Qabs_nonneg x0). lra. }
  rewrite (not_overflows_le (round (x0 * 100)) 70)
    by (done || by apply round_abs_le_pow2).
  intros [= <-]. cbn [reduction]. eexists. split; [done|].
  pose proof min_float_pos as Hmin.
  assert (0 < 2 ^ 1074 ∧ 2 ^ 63 ≤ 2 ^ 1074) as [Hp Hpow]
    by (split; [apply Z.pow_pos_nonneg|apply Z.pow_le_mono_r]; lia).
  split_and!.
  - intros Hlt.
    assert (1 # 2 ^ 1074 <= x)%Q as Hlow.
    { unfold x, Qle. cbn [Qnum Qden]. rewrite Pos2Z.inj_pow, Z2Pos.id by lia.
      nia. }
    apply round_ge_min in Hlow. fold x0 in Hlow.
    assert (1 # 2 ^ 1074 <= x0 * 100)%Q as Hlow' by lra.
    apply round_ge_min in Hlow'. lra.
  - intros ->. unfold x0. rewrite (round_zero x); [done|].
    unfold x, Qeq. cbn [Qnum Qden]. lia.
  - intros Hgt.
    assert (x <= - (1 # 2 ^ 1074))%Q as Hhigh.
    { unfold x, Qle. cbn [Qnum Qden Qopp].
      rewrite Pos2Z.inj_pow, Z2Pos.id by lia. nia. }
    apply round_le_neg_min in Hhigh. fold x0 in Hhigh.
    assert (x0 * 100 <= - (1 # 2 ^ 1074))%Q as Hhigh' by lra.
    apply round_le_neg_min in Hhigh'. lra.
Qed.

(** X16. The reduction [compress_pdf] reports for an input that is not
    empty is a finite float whose sign tells what happened to the size:
    positive exactly when the output is smaller than the input, zero
    exactly when the sizes are equal, negative exactly when the output is
    larger (sizes of [bytes] objects are at most [2^63]). *)
Theorem compress_pdf_reduction_sign (input_bytes output_bytes : bytes)
    (quality : string) (stats : stats_dict) :
  compress_pdf input_bytes quality = Ok (output_bytes, stats) →
  0 < len input_bytes ≤ 2 ^ 63 → len output_bytes ≤ 2 ^ 63 →
  ∃ r, reduction stats = Float (Finite r)
    ∧ ((0 < r)%Q ↔ len output_bytes < len input_bytes)
    ∧ ((r == 0)%Q ↔ len output_bytes = len input_bytes)
    ∧ ((r < 0)%Q ↔ len input_bytes < len output_bytes).
Proof.
  unfold compress_pdf.
  destruct (compress_document input_bytes) as [out|]; [|done].
  cbn [mbind result_bind].
  destruct (compression_stats _ _) as [st|] eqn:Hstats; [|done].
  cbn [mbind result_bind]. intros [= <- <-] Hin Hout.
  assert (0 ≤ len out ≤ 2 ^ 63) as Hsize by (unfold len in *; lia).
  destruct (reduction_sign _ _ _ Hin Hsize Hstats)
    as (r & Hr & Hpos & Hzero & Hneg).
  exists r. split; [done|].
  destruct (Z.lt_trichotomy (len out) (len input_bytes)) as [Hlt|[Heq|Hgt]].
  - specialize (Hpos Hlt).
    split_and!; split; intros; first [lra|lia|exfalso; lra|exfalso; lia].
  - specialize (Hzero Heq). subst r.
    split_and!; split; intros; first [lra|lia|exfalso; lra|exfalso; lia].
  - specialize (Hneg Hgt).
    split_and!; split; intros; first [lra|lia|exfalso; lra|exfalso; lia].
Qed.

End CompressorExtras.

(** ** The sizes as they are shown *)

Module FormatFacts.

Import PyFloat PyFloatFacts.

(** [round_half_even] on a fraction [a/b]. *)
Definition nearest (a b : Z) : Z :=
  let m := a `div` b in
  let r := a `mod` b in
  if (b <? 2 * r) || ((b =? 2 * r) && Z.odd m) then m + 1 else m.

Lemma round_half_even_nearest (q : Q) :
  PyFormat.round_half_even q = nearest (Qnum q) (Z.pos (Qden q)).
Proof. reflexivity. Qed.

Lemma nearest_scale a b c :
  0 < b → 0 < c → nearest (a * c) (b * c) = nearest a b.
Proof.
  intros Hb Hc. unfold nearest.
  rewrite Z.div_mul_cancel_r, Z.mul_mod_distr_r by lia.
  assert ((b * c <? 2 * (a `mod` b * c)) = (b <? 2 * (a `mod` b))) as ->.
  { destruct (b <? 2 * (a `mod` b)) eqn:Hlt;
      [apply Z.ltb_lt|apply Z.ltb_ge]; nia. }
  assert ((b * c =? 2 * (a `mod` b * c)) = (b =? 2 * (a `mod` b))) as ->.
  { destruct (b =? 2 * (a `mod` b)) eqn:Heq;
      [apply Z.eqb_eq|apply Z.eqb_neq]; nia. }
  done.
Qed.

(** The nearest integer is within a half. *)
Lemma nearest_error a b :
  0 < b → - b ≤ 2 * (b * nearest a b - a) ≤ b.
Proof.
  intros Hb. unfold nearest.
  pose proof (Z.div_mod a b ltac:(lia)) as Hdiv.
  pose proof (Z.mod_pos_bound a b Hb) as Hmod.
  destruct (_ || _) eqn:Hup.
  - apply orb_true_iff in Hup as [Hup|[Hup _]%andb_true_iff]; nia.
  - apply orb_false_iff in Hup as [Hup _]. nia.
Qed.

Lemma Qmake_eq (a a' : Z) (b b' : positive) :
  a = a' → Z.pos b = Z.pos b' → a # b = a' # b'.
Proof. intros -> [= ->]. done. Qed.

(** A fraction [n / 2^j] with [n < 2^53] is a float: rounding leaves its
    value as it is. *)
Lemma round_dyadic (n d : positive) (j : Z) :
  Z.pos n < 2 ^ 53 → Z.pos d = 2 ^ j → 0 ≤ j ≤ 1074 →
  ∃ c : positive, round (Z.pos n # d) = (Z.pos n * Z.pos c) # (d * c).
Proof.
  intros Hn Hd Hj. unfold round. cbn [Qnum Qden]. unfold round_pos.
  assert (ulp_exponent n d ≤ - j) as He.
  { unfold ulp_exponent, emin. rewrite Hd, Z.log2_pow2 by lia.
    assert (Z.log2 (Z.pos n) < 53) by (apply Z.log2_lt_pow2; lia).
    case_match; lia. }
  set (e := ulp_exponent n d) in *. clearbody e.
  assert (0 < 2 ^ (- e - j)) as Hc by (apply Z.pow_pos_nonneg; lia).
  exists (Z.to_pos (2 ^ (- e - j))). rewrite Z2Pos.id by done.
  unfold round_at.
  rewrite (Z.max_r 0 (- e)), (Z.max_l 0 e), Z.pow_0_r, Z.mul_1_r by lia.
  assert (2 ^ (- e) = 2 ^ (- e - j) * Z.pos d) as Hpow
    by (rewrite Hd, <-Z.pow_add_r by lia; f_equal; lia).
  rewrite Hpow, Z.mul_assoc, Z.div_mul, Z.mod_mul by lia.
  replace ((Z.pos d <? 2 * 0) || ((Z.pos d =? 2 * 0) && Z.odd _)) with false
    by (symmetry; apply orb_false_iff; split;
        [apply Z.ltb_ge; lia|apply andb_false_iff; left; apply Z.eqb_neq; lia]).
  unfold scale. destruct (0 <=? e) eqn:Hsign.
  - assert (e = 0 ∧ j = 0) as [-> ->] by lia.
    apply Qmake_eq; [simpl; lia|]. simpl in Hd. rewrite Pos2Z.inj_mul.
    simpl. lia.
  - apply Qmake_eq; [done|].
    rewrite Pos2Z.inj_pow, Pos2Z.inj_mul, !Z2Pos.id by lia. lia.
Qed.

(** [size / unit] shown with [prec] decimals, for a unit that is a power of
    two and a size below [2^53]: the digits are those of the integer
    nearest to [size * 10^prec / unit]. *)
Lemma fixed_quotient (prec : nat) (size unit j : Z) :
  0 < size < 2 ^ 53 → unit = 2 ^ j → 0 < j ≤ 1000 →
  ∃ n, (x ← true_div size unit; Ok (PyFormat.fixed prec x))
       = Ok (PyFormat.decimal prec n)
    ∧ - unit ≤ 2 * (unit * n - size * 10 ^ Z.of_nat prec) ≤ unit.
Proof.
  intros Hsize -> Hj.
  assert (0 < 2 ^ j) as Hunit by (apply Z.pow_pos_nonneg; lia).
  assert (0 < 10 ^ Z.of_nat prec) as Hten by (apply Z.pow_pos_nonneg; lia).
  unfold true_div. replace (2 ^ j =? 0) with false by lia.
  replace (Z.sgn (2 ^ j) * size) with size by lia.
  replace (Z.abs (2 ^ j)) with (2 ^ j) by lia.
  destruct size as [|p|p]; [lia| |lia].
  destruct (round_dyadic p (Z.to_pos (2 ^ j)) j) as [c Hround];
    [lia|by rewrite Z2Pos.id|lia|].
  rewrite (not_overflows_le _ 53).
  2: done.
  2:{ apply round_abs_le_pow2; [lia|]. unfold Qle. simpl.
      rewrite Z2Pos.id by done. nia. }
  cbn [mbind result_bind]. rewrite Hround.
  exists (nearest (Z.pos p * 10 ^ Z.of_nat prec) (2 ^ j)). split.
  - unfold PyFormat.fixed. f_equal.
    replace (is_negative _) with false
      by (symmetry; unfold is_negative; cbn [Qnum]; apply Z.ltb_ge; lia).
    change ("" +:+ ?s) with s. f_equal.
    rewrite round_half_even_nearest. cbn [Qabs Qmult Qnum Qden inject_Z].
    rewrite !Pos2Z.inj_mul, Z2Pos.id by done.
    rewrite Z.abs_eq by lia.
    rewrite <-(nearest_scale (Z.pos p * 10 ^ Z.of_nat prec) (2 ^ j) (Z.pos c))
      by lia.
    f_equal; lia.
  - pose proof (nearest_error (Z.pos p * 10 ^ Z.of_nat prec) (2 ^ j) Hunit).
    lia.
Qed.

End FormatFacts.

(** X17. A size from 1 KiB up to [2^53] bytes is shown exactly rounded: in
    kilobytes with one decimal below 1 MiB and in megabytes with two from
    there on, the number shown being the nearest one with that many
    decimals to the size in the unit, at most half a last digit away. *)
Theorem format_size_rounds (size : Z) :
  (1024 ≤ size < 1024 * 1024 →
   ∃ n, format_size size = Ok (PyFormat.decimal 1 n +:+ " KB")
     ∧ - 512 ≤ 1024 * n - 10 * size ≤ 512)
  ∧ (1024 * 1024 ≤ size < 2 ^ 53 →
     ∃ n, format_size size = Ok (PyFormat.decimal 2 n +:+ " MB")
       ∧ - 2 ^ 19 ≤ 2 ^ 20 * n - 100 * size ≤ 2 ^ 19).
Proof.
  unfold format_size. split; intros Hsize.
  - rewrite decide_False, decide_True by lia.
    destruct (FormatFacts.fixed_quotient 1 size 1024 10) as (n & Hn & Herr);
      [lia|done|lia|].
    exists n. split; [|simpl in Herr; lia].
    destruct (PyFloat.true_div size 1024) as [x|];
      cbn [mbind result_bind] in *; [|done].
    injection Hn as Hn. by rewrite Hn.
  - rewrite !decide_False by lia.
    destruct (FormatFacts.fixed_quotient 2 size (1024 * 1024) 20)
      as (n & Hn & Herr); [lia|done|lia|].
    exists n. split; [|simpl in Herr; lia].
    destruct (PyFloat.true_div size (1024 * 1024)) as [x|];
      cbn [mbind result_bind] in *; [|done].
    injection Hn as Hn. by rewrite Hn.
Qed.

(** X18. The unit is chosen on the bytes and the rounding is made after:
    the last 51 sizes below 1 MiB are shown as [1024.0 KB]. *)
Theorem format_size_unit_boundary (size : Z) :
  1048525 ≤ size < 1048576 → format_size size = Ok "1024.0 KB".
Proof.
  intros Hsize. unfold format_size.
  rewrite decide_False, decide_True by lia.
  destruct (FormatFacts.fixed_quotient 1 size 1024 10) as (n & Hn & Herr);
    [lia|done|lia|].
  simpl in Herr. assert (n = 10240) as -> by lia.
  destruct (PyFloat.true_div size 1024) as [x|];
    cbn [mbind result_bind] in *; [|done].
  injection Hn as Hn. by rewrite Hn.
Qed.

(** ** The further properties at work *)

(** Page 7 of a document of 10 pages. *)
Lemma parse_page_range_single_witness :
  parse_page_range 4300 (pretty 7) 10 = Ok [7 - 1].
Proof. apply (parse_page_range_single 4300 7 10); lia. Defined.


(** The range [2-9] over 5 pages and over 8 pages. *)
Lemma parse_page_range_total_mono_witness :
  ∃ pages pages',
    parse_page_range 4300 "2-9" 5 = Ok pages
    ∧ parse_page_range 4300 "2-9" 8 = Ok pages'
    ∧ ∀ i, i ∈ pages ↔ i ∈ pages' ∧ i < 5.
Proof. apply (parse_page_range_total_mono 4300 "2-9" 5 8). lia. Defined.

(** The parts [-3] and [3-]. *)
Lemma parse_page_range_dash_edge_witness :
  parse_page_range 4300 ("-" +:+ "3") 5 = Ok []
  ∧ parse_page_range 4300 ("3" +:+ "-") 5 = Ok [].
Proof. apply (parse_page_range_dash_edge 4300 "3" 5). reflexivity. Defined.

(** Pages 3 and 1 of the three pages [A], [B], [C], asked for in that
    order. *)
Lemma split_pdf_names_distinct_witness :
  NoDup [("page_1.pdf", [x25; x41]); ("page_3.pdf", [x25; x43])].*1.
Proof.
  apply (split_pdf_names_distinct (H := OneBytePages.library) 4300
           [x25; x41; x42; x43] "range" "3,1").
  reflexivity.
Defined.


Lemma split_pdf_index_in_range_witness :
  ∃ page, [x41; x42; x43] !! Z.to_nat 2 = Some page
    ∧ getitem [x41; x42; x43] 2 = Ok page.
Proof.
  apply (split_pdf_index_in_range (H := OneBytePages.library) 4300
           "range" "3,1" [x41; x42; x43] [0; 2] 2).
  - reflexivity.
  - apply elem_of_cons. right. apply elem_of_cons. by left.
Defined.


(** A merge whose second source is not a document. *)
Lemma merge_pdfs_fail_fast_witness :
  merge_pdfs (H := OneBytePages.library)
    ([[x25; x41]] ++ [x41] :: [[x25; x42]])
  = Raise (PyPdfError "not a PDF").
Proof.
  apply (merge_pdfs_fail_fast (H := OneBytePages.library)
           [[x25; x41]] [[x25; x42]] [x41] [x41]); reflexivity.
Defined.

Lemma merge_pdfs_in_steps_witness :
  ∃ first both all reader_both reader_all,
    merge_pdfs (H := OneBytePages.library) [[x25; x41]; [x25; x42]] = Ok first
    ∧ merge_pdfs (H := OneBytePages.library) (first :: [[x25; x43]]) = Ok both
    ∧ merge_pdfs (H := OneBytePages.library)
        ([[x25; x41]; [x25; x42]] ++ [[x25; x43]]) = Ok all
    ∧ OneBytePages.read both = Ok reader_both
    ∧ OneBytePages.read all = Ok reader_all
    ∧ reader_both = reader_all.
Proof.
  apply (merge_pdfs_in_steps (H := OneBytePages.library)
           OneBytePagesFacts.pages_held OneBytePagesFacts.held_new
           OneBytePagesFacts.held_append OneBytePagesFacts.held_write
           [[x25; x41]; [x25; x42]] [[x25; x43]] [[x41]; [x42]] [[x43]]);
    repeat constructor.
Defined.

Lemma download_names_witness :
  compressed_download_name ("a.tar" +:+ "." +:+ "gz")
  = "a.tar" +:+ "_compressed.pdf"
  ∧ split_archive_name ("a.tar" +:+ "." +:+ "gz") = "a.tar" +:+ "_pages.zip"
  ∧ compressed_download_name "gz" = "gz" +:+ "_compressed.pdf"
  ∧ split_archive_name "gz" = "gz" +:+ "_pages.zip".
Proof. apply (download_names "a.tar" "gz"). reflexivity. Defined.

Lemma create_zip_entries_witness :
  ∃ archive : list (string * bytes),
    Ok (concat archive.*2) = Ok [x25; x41; x25; x43]
    ∧ archive = [("page_1.pdf", [x25; x41]); ("page_3.pdf", [x25; x43])]
    ∧ NoDup archive.*1.
Proof.
  apply (proj2 (create_zip_entries (H := OneBytePages.library)
                  (H0 := PlainEntries.library) (λ archive, archive)
                  eq_refl
                  (λ archive archive' filename content Hw,
                     eq_sym (f_equal (λ r, match r with
                                           | Ok a => a
                                           | Raise _ => archive'
                                           end) Hw))
                  4300)
           [x25; x41; x42; x43] "range" "3,1"
           [("page_1.pdf", [x25; x41]); ("page_3.pdf", [x25; x43])]
           [x25; x41; x25; x43]);
    reflexivity.
Defined.

(** Five bytes compressed to three. *)
Lemma compress_pdf_reduction_sign_witness :
  ∃ r, Float (PyFloat.Finite (40 * 2 ^ 47 # 2 ^ 47)) = Float (PyFloat.Finite r)
    ∧ ((0 < r)%Q ↔ len [x25; x41; x42] < len [x25; x41; x00; x00; x42])
    ∧ ((r == 0)%Q ↔ len [x25; x41; x42] = len [x25; x41; x00; x00; x42])
    ∧ ((r < 0)%Q ↔ len [x25; x41; x00; x00; x42] < len [x25; x41; x42]).
Proof.
  apply (compress_pdf_reduction_sign (H := OneBytePages.library)
           [x25; x41; x00; x00; x42] [x25; x41; x42] "medium"
           {| original_size := 5; compressed_size := 3;
              reduction := Float (PyFloat.Finite (40 * 2 ^ 47 # 2 ^ 47)) |}).
  - reflexivity.
  - change (0 < 5 ≤ 2 ^ 63). lia.
  - change (3 ≤ 2 ^ 63). lia.
Defined.

(** 1536 bytes are shown as [1.5 KB]. *)
Lemma format_size_rounds_witness :
  ∃ n, format_size 1536 = Ok (PyFormat.decimal 1 n +:+ " KB")
    ∧ - 512 ≤ 1024 * n - 10 * 1536 ≤ 512.
Proof. apply (proj1 (format_size_rounds 1536)). lia. Defined.

Lemma format_size_unit_boundary_witness :
  format_size 1048575 = Ok "1024.0 KB".
Proof. apply (format_size_unit_boundary 1048575). lia. Defined.
